(** * ILP sender: quoting, PSK payment requests and idempotent paying

    A shallow embedding of [src/lib/sender.js] (the sender returned by
    [createSender]) and of the [ReceiverRejectionError] class.

    JavaScript objects are finite maps from property names to values
    ([gmap string JSValue]); the one object that the code mutates through
    an alias (the argument of [payRequest]) lives in a store indexed by
    references.  Promise chains that only talk to the ledger client are
    written in a small error-and-log monad; [payRequest], whose outcome
    depends on how ledger responses, fulfillment events and the expiry
    timer interleave, is a step function over timestamped stimuli. *)

From Stdlib Require Import ZArith String Ascii List Bool Lia.
From stdpp Require Import base option list strings gmap fin_maps pretty.

Open Scope string_scope.
Open Scope Z_scope.
Open Scope list_scope.

(** ** JavaScript values *)

Module JS.

#[warnings="-register-all"] Inductive JSValue : Type :=
| VUndefined
| VNull
| VBool (b : bool)
| VNum (n : Z)
| VStr (s : string)
| VObj (props : gmap string JSValue).

Abbreviation JSObject := (gmap string JSValue).

(** [!v] is true exactly for the falsy values.  [VNum n] is the number
    whose value is the integer [n]; numbers with a fractional part, [NaN]
    and the infinities are not modelled, so the only falsy number is
    [0]. *)
Definition truthy (v : JSValue) : bool :=
  match v with
  | VUndefined | VNull => false
  | VBool b => b
  | VNum n => negb (Z.eqb n 0)
  | VStr s => negb (String.eqb s "")
  | VObj _ => true
  end.

(** [typeof v === 'string'] *)
Definition is_string (v : JSValue) : bool :=
  match v with VStr _ => true | _ => false end.

(** [a || b] *)
Definition or (a b : JSValue) : JSValue := if truthy a then a else b.

(** Property read [o.k] on an object: an absent property reads as
    [undefined]. *)
Definition get (o : JSObject) (k : string) : JSValue :=
  default VUndefined (o !! k).

(** Property read [v.k] on a value that is known not to be [null] or
    [undefined]; primitives have none of the properties read here. *)
Definition prop (v : JSValue) (k : string) : JSValue :=
  match v with VObj o => get o k | _ => VUndefined end.

(** [Object.assign(target, source)]: every own property of [source] is
    written to [target], the others stay. *)
Definition assign (target source : JSObject) : JSObject := source ∪ target.

(** [a === b].  Objects compare by identity; the objects compared here
    come from different owners, so two objects are never identical. *)
Definition strict_eq (a b : JSValue) : bool :=
  match a, b with
  | VUndefined, VUndefined => true
  | VNull, VNull => true
  | VBool x, VBool y => Bool.eqb x y
  | VNum x, VNum y => Z.eqb x y
  | VStr x, VStr y => String.eqb x y
  | _, _ => false
  end.

(** Thrown or rejected values: an [Error] instance with its [name], its
    [message] and further own properties. *)
Record JSError : Type := mkError {
  err_name : string;
  err_message : JSValue;
  err_props : JSObject
}.

(** [new Error(msg)] for a string literal [msg]. *)
Definition Error (msg : string) : JSError :=
  {| err_name := "Error"; err_message := VStr msg; err_props := ∅ |}.

(** [new TypeError(msg)], as raised by the runtime. *)
Definition TypeError (msg : string) : JSError :=
  {| err_name := "TypeError"; err_message := VStr msg; err_props := ∅ |}.

End JS.
Import JS.

(** ** Collaborators

    Libraries and helper modules that [sender.js] requires but does not
    define.  The development is parametric in them. *)

Abbreviation Buffer := (list Byte.byte).

Class Platform : Type := {
  (** The engine's [Number::toString] on an integer beyond the safe
      range (shortest digits that read back as the same number, in
      exponent form from 1e21 on). *)
  numberToString : Z → string;
  (** [aguid]: a UUID derived from a string. *)
  deterministicUuid : string → string;
  (** [moment(s)] for a string: the instant in milliseconds since the
      epoch, or [None] for an invalid date. *)
  momentParse : string → option Z;
  (** [moment(o)] for an object, read at the given wall-clock time: the
      instant named by its unit properties ([year], [month], ...), or
      [None] for an invalid date. *)
  momentObject : Z → JSObject → option Z;
  (** [m.toISOString()] of a valid moment. *)
  toISOString : Z → string;
  (** [Buffer.from(s, 'base64')] *)
  base64Decode : string → Buffer;
  (** [utils/crypto]: [hmacJsonForPskCondition(obj, sharedSecret)] *)
  hmacJsonForPskCondition : JSObject → Buffer → Buffer;
  (** [utils/crypto]: [aesEncryptObject(obj, sharedSecret)]; the first
      argument is the randomness the cipher draws. *)
  aesEncryptObject : Buffer → JSValue → Buffer → Buffer;
  (** [utils/condition]: [toConditionUri(preimage)] *)
  toConditionUri : Buffer → string;
  (** [utils/base64url] *)
  base64url : Buffer → string;
  (** [utils/ilp-errors]: the exported [codes] table. *)
  codes : JSValue
}.

(** ** Coercion to strings *)

(** [Number.MAX_SAFE_INTEGER], 2^53 - 1: up to it every integer is a
    number of its own, printed as its decimal digits. *)
Definition MAX_SAFE_INTEGER : Z := 9007199254740991.

Section Strings.
Context `{Platform}.

(** [String(v)], also the coercion applied by [+] next to a string. *)
Definition to_string (v : JSValue) : string :=
  match v with
  | VUndefined => "undefined"
  | VNull => "null"
  | VBool true => "true"
  | VBool false => "false"
  | VNum n => if Z.abs n <=? MAX_SAFE_INTEGER then pretty n else numberToString n
  | VStr s => s
  | VObj _ => "[object Object]"
  end.
End Strings.

(** ** Time: [moment] *)

(** A moment is an instant in milliseconds, or invalid. *)
Abbreviation Moment := (option Z).

(** The largest time value of a [Date], in milliseconds on either side
    of the epoch. *)
Definition MAX_TIME_VALUE : Z := 8640000000000000.

Section Moments.
Context `{Platform}.

(** [moment(v)] at wall-clock time [now]: no argument or [undefined]
    gives the current time, a string is parsed, a number is a timestamp
    ([new Date(n)], invalid beyond the largest time value), an object is
    read by its unit properties; [null] and booleans give an invalid
    moment. *)
Definition moment (now : Z) (v : JSValue) : Moment :=
  match v with
  | VUndefined => Some now
  | VStr s => momentParse s
  | VNum n => if Z.abs n <=? MAX_TIME_VALUE then Some n else None
  | VObj o => momentObject now o
  | VNull | VBool _ => None
  end.

(** [m.add(n, 'seconds')] *)
Definition add_seconds (n : Z) (m : Moment) : Moment :=
  (λ t, t + 1000 * n)%Z <$> m.

(** [b.isBefore(a)]: false as soon as one side is invalid. *)
Definition isBefore (b a : Moment) : bool :=
  match b, a with
  | Some x, Some y => (x <? y)%Z
  | _, _ => false
  end.

(** [moment.min(ms)]: starting from the first moment, a later one
    replaces the pick when it is invalid or before the pick. *)
Definition moment_min (ms : list Moment) : Moment :=
  match ms with
  | [] => None
  | m :: rest =>
      fold_left (λ res x, if negb (bool_decide (is_Some x)) || isBefore x res
                          then x else res) rest m
  end.

(** [m.toISOString()]: [null] for an invalid moment. *)
Definition moment_toISOString (m : Moment) : JSValue :=
  match m with
  | Some t => VStr (toISOString t)
  | None => VNull
  end.

(** [a.diff(b)] in milliseconds; [None] is [NaN]. *)
Definition moment_diff (a b : Moment) : option Z :=
  match a, b with
  | Some x, Some y => Some (x - y)%Z
  | _, _ => None
  end.
End Moments.

(** ** The ledger client *)

(** Calls made on the [ilp-core] client, in the order they are made.
    A listener is identified by a number standing for the identity of
    its closure. *)
Inductive ClientCall : Type :=
| CConnect
| CQuote (query : JSObject)
| CSendQuotedPayment (payment : JSObject)
| COn (event : string) (listener : nat)
| CRemoveListener (event : string) (listener : nat)
| CGetFulfillment (transferId : string)
| CDisconnect.

(** How a promise settles. *)
Inductive Settled : Type :=
| Resolved (v : JSValue)
| Rejected (e : JSError).

(** What the client answers during one quoting call, and the wall clock
    at the time the quote arrives. *)
Record World : Type := {
  connect_response : option JSError;
  quote_response : JSObject → JSError + JSValue;
  now : Z
}.

(** *** Promise chains

    A chain reads the world, appends to the log of client calls, and
    either yields a value or rejects.  A rejection skips the remaining
    [then] handlers. *)
Definition Chain (A : Type) : Type :=
  World → list ClientCall → (JSError + A) * list ClientCall.

Definition throw {A} (e : JSError) : Chain A := λ _ log, (inl e, log).

#[global] Instance chain_ret : MRet Chain := λ A a _ log, (inr a, log).
#[global] Instance chain_bind : MBind Chain := λ A B k m w log,
  match m w log with
  | (inr a, log') => k a w log'
  | (inl e, log') => (inl e, log')
  end.

(** [client.connect()] *)
Definition client_connect : Chain unit :=
  λ w log, (match connect_response w with
            | None => inr tt
            | Some e => inl e
            end, log ++ [CConnect]).

(** [client.quote(query)] *)
Definition client_quote (query : JSObject) : Chain JSValue :=
  λ w log, (quote_response w query, log ++ [CQuote query]).

(** [moment()] read inside a handler. *)
Definition clock : Chain Z := λ w log, (inr (now w), log).

(** The promise returned to the caller, with the client calls made. *)
Definition settle (m : Chain JSValue) (w : World) : Settled * list ClientCall :=
  match m w [] with
  | (inr v, log) => (Resolved v, log)
  | (inl e, log) => (Rejected e, log)
  end.

(** ** [createSender] *)

(** [buf.toString('hex')] *)
Definition hex_digit (n : N) : ascii :=
  default "0"%char (list_ascii_of_string "0123456789abcdef" !! N.to_nat n).

Fixpoint hex (buf : Buffer) : string :=
  match buf with
  | [] => ""
  | b :: rest =>
      let n := Byte.to_N b in
      String (hex_digit (n / 16)%N) (String (hex_digit (n mod 16)%N) (hex rest))
  end.

(** The options [createSender] reads besides the client. *)
Record Opts : Type := {
  opts_maxHoldDuration : option Z;
  opts_defaultRequestTimeout : option Z;
  opts_uuidSeed : option Buffer
}.

(** The constants captured by the sender's functions. *)
Record Sender : Type := {
  maxHoldDuration : Z;
  defaultRequestTimeout : Z;
  uuidSeed : string
}.

(** [opt || dflt] for a numeric option: an absent option and [0] are
    both falsy. *)
Definition or_default (opt : option Z) (dflt : Z) : Z :=
  match opt with
  | Some n => if n =? 0 then dflt else n
  | None => dflt
  end.

(** [randomBytes] is the result of [crypto.randomBytes(32)]. *)
Definition createSender (opts : Opts) (randomBytes : Buffer) : Sender :=
  {| maxHoldDuration := or_default (opts_maxHoldDuration opts) 10;
     defaultRequestTimeout := or_default (opts_defaultRequestTimeout opts) 30;
     uuidSeed := hex (default randomBytes (opts_uuidSeed opts)) |}.

(** ** Quoting *)

Section Quoting.
Context `{Platform}.
Variable sender : Sender.

Definition quoteSourceAmount (destinationAddress sourceAmount : JSValue)
  : Chain JSValue :=
  if negb (truthy destinationAddress) || negb (is_string destinationAddress)
  then throw (Error "Must provide destination address")
  else if negb (truthy sourceAmount)
  then throw (Error "Must provide source amount")
  else
    client_connect;;
    quote ← client_quote
      {[ "destinationAddress" := destinationAddress;
         "sourceAmount" := VStr (to_string sourceAmount) ]};
    if negb (truthy quote)
    then throw (Error "Got empty quote response from the connector")
    else mret (VStr (to_string (prop quote "destinationAmount"))).

Definition quoteDestinationAmount (destinationAddress destinationAmount : JSValue)
  : Chain JSValue :=
  if negb (truthy destinationAddress) || negb (is_string destinationAddress)
  then throw (Error "Must provide destination address")
  else if negb (truthy destinationAmount)
  then throw (Error "Must provide destination amount")
  else
    client_connect;;
    quote ← client_quote
      {[ "destinationAddress" := destinationAddress;
         "destinationAmount" := VStr (to_string destinationAmount) ]};
    if negb (truthy quote)
    then throw (Error "Got empty quote response from the connector")
    else mret (VStr (to_string (prop quote "sourceAmount"))).

(** The clamped expiry of [quoteRequest]:
    [moment.min([moment(expires_at), moment().add(maxHoldDuration, 'seconds')]).toISOString()] *)
Definition clampedExpiry (t : Z) (expires_at : JSValue) : JSValue :=
  moment_toISOString
    (moment_min [ moment t expires_at;
                  add_seconds (maxHoldDuration sender) (moment t VUndefined) ]).

Definition quoteRequest (request : JSObject) : Chain JSValue :=
  if negb (truthy (get request "address"))
  then throw (Error "Malformed payment request: no address")
  else if negb (truthy (get request "amount"))
  then throw (Error "Malformed payment request: no amount")
  else if negb (truthy (get request "condition"))
  then throw (Error "Malformed payment request: no condition")
  else
    client_connect;;
    quote ← client_quote
      {[ "destinationAddress" := get request "address";
         "destinationAmount" := get request "amount" ]};
    if negb (truthy quote)
    then throw (Error "Got empty quote response from the connector")
    else
      t ← clock;
      mret (VObj
        {[ "sourceAmount" := VStr (to_string (prop quote "sourceAmount"));
           "connectorAccount" := prop quote "connectorAccount";
           "destinationAmount" := VStr (to_string (get request "amount"));
           "destinationAccount" := get request "address";
           "destinationMemo" :=
             VObj {[ "data" := get request "data";
                     "expires_at" := get request "expires_at" ]};
           "expiresAt" := clampedExpiry t (get request "expires_at");
           "executionCondition" := get request "condition" ]}).
End Quoting.

(** ** [createRequest] *)

(** What one [createRequest] call draws from outside its arguments: the
    wall clock, [uuid.v4()], and the cipher's randomness. *)
Record Entropy : Type := {
  e_now : Z;
  e_uuid_v4 : string;
  e_cipher : Buffer
}.

Section CreateRequest.
Context `{Platform}.
Variable sender : Sender.

(** The [paymentRequest] object as it stands when the condition
    preimage is computed: built from the parameters, with the
    discriminator already appended to the address. *)
Definition conditionFields (env : Entropy) (params : JSObject) : JSObject :=
  let paymentRequest : JSObject :=
    {[ "address" := get params "destinationAccount";
       "amount" := get params "destinationAmount";
       "expires_at" :=
         or (get params "expiresAt")
            (moment_toISOString
               (add_seconds (defaultRequestTimeout sender)
                            (moment (e_now env) VUndefined))) ]} in
  <[ "address" :=
       VStr (to_string (get paymentRequest "address") +:+ "." +:+
             to_string (or (get params "id") (VStr (e_uuid_v4 env)))) ]>
    paymentRequest.

(** [Buffer.from(v, 'base64')] raises a [TypeError] unless given a
    string (buffers and arrays are not modelled). *)
Definition sharedSecretBuffer (v : JSValue) : JSError + Buffer :=
  match v with
  | VStr s => inr (base64Decode s)
  | _ => inl (TypeError "The first argument must be a string")
  end.

Definition createRequest (env : Entropy) (params : JSObject)
  : JSError + JSObject :=
  let paymentRequest := conditionFields env params in
  match sharedSecretBuffer (get params "sharedSecret") with
  | inl e => inl e
  | inr sharedSecret =>
      let conditionPreimage :=
        hmacJsonForPskCondition paymentRequest sharedSecret in
      let condition := toConditionUri conditionPreimage in
      let paymentRequest :=
        if truthy (get params "data")
        then <[ "data" :=
                  VObj {[ "blob" :=
                    VStr (base64url
                            (aesEncryptObject (e_cipher env)
                               (get params "data") sharedSecret)) ]} ]>
               paymentRequest
        else paymentRequest in
      inr (assign (assign ∅ paymentRequest) {[ "condition" := VStr condition ]})
  end.
End CreateRequest.

(** ** [payRequest] *)

Inductive Promise : Type :=
| Pending
| Done (s : Settled).

(** Where the promise chain of one [payRequest] call stands. *)
Inductive Phase : Type :=
| Connecting     (* waiting for [client.connect()] *)
| Submitting     (* waiting for [client.sendQuotedPayment(payment)] *)
| Polling        (* listener registered, waiting for [getFulfillment] *)
| Waiting        (* the chain returned [promiseFulfillmentListener] *)
| Finished.      (* the promise returned by [payRequest] has settled *)

Record State : Type := mkState {
  (** wall clock, in milliseconds *)
  st_clock : Z;
  (** objects that are passed by reference *)
  st_store : gmap nat JSObject;
  (** the client's 'outgoing_fulfill' listeners, in registration order *)
  st_listeners : list nat;
  (** calls made on the client *)
  st_log : list ClientCall;
  (** [transferTimeout]: the time at which it fires, while it is set *)
  st_timer : option Z;
  (** the closure [fulfillmentListener], once created *)
  st_listener : option nat;
  (** [promiseFulfillmentListener]; [None] while the variable is
      [undefined] *)
  st_listenerPromise : option Promise;
  st_phase : Phase;
  (** the promise returned by [payRequest] *)
  st_result : Promise
}.

(** What the outside world does to a call in progress. *)
Inductive Stimulus : Type :=
| ConnectDone (r : option JSError)
| SendDone (r : option JSError)
| LookupDone (r : JSError + JSValue)
| OutgoingFulfill (transfer : JSObject) (fulfillment : JSValue).

(** The constants of one call: the reference held by [paymentParams]
    (and [payment], which is the same object) and [transferId]. *)
Record Call : Type := {
  paymentParams : nat;
  call_transferId : string
}.

Definition deref (st : State) (ref : nat) : JSObject :=
  default ∅ (st_store st !! ref).

(** [setTimeout(f, ms)] in Node.js: a delay that is not a number in
    [1, 2^31 - 1] is replaced by [1]. *)
Definition timerDelay (ms : option Z) : Z :=
  match ms with
  | Some n => if (1 <=? n) && (n <=? 2147483647) then n else 1
  | None => 1
  end.

Definition expiredError : JSError := Error "Transfer expired, money returned".

Definition set_clock (t : Z) (st : State) : State :=
  mkState t (st_store st) (st_listeners st) (st_log st) (st_timer st)
          (st_listener st) (st_listenerPromise st) (st_phase st) (st_result st).

Definition call_client (c : ClientCall) (st : State) : State :=
  mkState (st_clock st) (st_store st) (st_listeners st) (st_log st ++ [c])
          (st_timer st) (st_listener st) (st_listenerPromise st) (st_phase st)
          (st_result st).

Definition set_phase (p : Phase) (st : State) : State :=
  mkState (st_clock st) (st_store st) (st_listeners st) (st_log st)
          (st_timer st) (st_listener st) (st_listenerPromise st) p (st_result st).

(** The promise returned by [payRequest] settles. *)
Definition finish (s : Settled) (st : State) : State :=
  mkState (st_clock st) (st_store st) (st_listeners st) (st_log st)
          (st_timer st) (st_listener st) (st_listenerPromise st) Finished (Done s).

(** [clearTimeout(transferTimeout)] *)
Definition clearTimeout (st : State) : State :=
  mkState (st_clock st) (st_store st) (st_listeners st) (st_log st) None
          (st_listener st) (st_listenerPromise st) (st_phase st) (st_result st).

(** [client.removeListener('outgoing_fulfill', fulfillmentListener)];
    a closure is registered at most once. *)
Definition removeListener (me : nat) (st : State) : State :=
  call_client (CRemoveListener "outgoing_fulfill" me)
    (mkState (st_clock st) (st_store st)
             (filter (λ l, l ≠ me) (st_listeners st)) (st_log st) (st_timer st)
             (st_listener st) (st_listenerPromise st) (st_phase st) (st_result st)).

(** [resolve(v)] or [reject(e)] of [promiseFulfillmentListener]: a
    settled promise stays as it is, and a chain that has returned this
    promise settles with it. *)
Definition settleListener (s : Settled) (st : State) : State :=
  match st_listenerPromise st with
  | Some Pending =>
      let st' :=
        mkState (st_clock st) (st_store st) (st_listeners st) (st_log st)
                (st_timer st) (st_listener st) (Some (Done s)) (st_phase st)
                (st_result st) in
      match st_phase st with
      | Waiting => finish s st'
      | _ => st'
      end
  | _ => st
  end.

Section PayRequest.
Context `{Platform}.
Variable sender : Sender.

Definition transferId (paymentParams : JSObject) : string :=
  deterministicUuid
    (uuidSeed sender +:+ to_string (get paymentParams "executionCondition")).

(** The synchronous part of [payRequest]: the transfer id is computed,
    [Object.assign] writes it into the caller's object, and
    [client.connect()] is called. *)
Definition payRequest (st : State) (ref : nat) : Call * State :=
  let id := transferId (deref st ref) in
  let payment := assign (deref st ref) {[ "uuid" := VStr id ]} in
  ({| paymentParams := ref; call_transferId := id |},
   call_client CConnect
     (mkState (st_clock st) (<[ ref := payment ]> (st_store st))
              (st_listeners st) (st_log st) None None None Connecting Pending)).

Variable call : Call.

Definition payment (st : State) : JSObject := deref st (paymentParams call).

(** The executor of [promiseFulfillmentListener], followed by the call
    of [getFulfillment(transferId)] on the plugin. *)
Definition listenAndPoll (st : State) : State :=
  let delay :=
    moment_diff (moment (st_clock st) (get (payment st) "expiresAt"))
                (moment (st_clock st) VUndefined) in
  let me := fresh (st_listeners st) in
  call_client (CGetFulfillment (call_transferId call))
    (call_client (COn "outgoing_fulfill" me)
       (mkState (st_clock st) (st_store st) (st_listeners st ++ [me])
                (st_log st) (Some (st_clock st + timerDelay delay))
                (Some me) (Some Pending) Polling (st_result st))).

(** The second [catch] and the last [then] of the chain. *)
Definition lookedUp (r : JSError + JSValue) (st : State) : State :=
  let caught : JSError + JSValue :=
    match r with
    | inl err =>
        if String.eqb (err_name err) "MissingFulfillmentError"
        then inr VNull else inl err
    | inr v => inr v
    end in
  match caught with
  | inl err => finish (Rejected err) st
  | inr fulfillment =>
      if truthy fulfillment then finish (Resolved fulfillment) st
      else match st_listenerPromise st with
           | None => finish (Resolved VUndefined) st
           | Some Pending => set_phase Waiting st
           | Some (Done s) => finish s st
           end
  end.

(** The first [catch] and the [then] after it.  A rejection that is
    rethrown skips that [then] and reaches the second [catch]. *)
Definition submitted (r : option JSError) (st : State) : State :=
  match r with
  | Some err =>
      if negb (String.eqb (err_name err) "DuplicateIdError")
      then lookedUp (inl err) st
      else listenAndPoll st
  | None => listenAndPoll st
  end.

(** [fulfillmentListener(transfer, fulfillment)] *)
Definition fulfillmentListener (me : nat)
    (transfer : JSObject) (fulfillment : JSValue) (st : State) : State :=
  if strict_eq (get transfer "executionCondition")
               (get (payment st) "executionCondition")
  then settleListener (Resolved fulfillment)
         (removeListener me (clearTimeout st))
  else st.

(** The client emits 'outgoing_fulfill': the listener runs if it is
    registered. *)
Definition emit (transfer : JSObject) (fulfillment : JSValue) (st : State)
  : State :=
  match st_listener st with
  | Some me =>
      if bool_decide (me ∈ st_listeners st)
      then fulfillmentListener me transfer fulfillment st
      else st
  | None => st
  end.

(** The callback of [transferTimeout]. *)
Definition timeout (st : State) : State :=
  match st_listener st with
  | Some me => settleListener (Rejected expiredError) (removeListener me st)
  | None => st
  end.

(** Time passes until [t]; a timer that is due fires, and is no longer
    set while its callback runs. *)
Definition advance (t : Z) (st : State) : State :=
  let st := set_clock (Z.max (st_clock st) t) st in
  match st_timer st with
  | Some due => if due <=? st_clock st then timeout (clearTimeout st) else st
  | None => st
  end.

Definition step (st : State) (s : Stimulus) : State :=
  match s, st_phase st with
  | ConnectDone None, Connecting =>
      set_phase Submitting (call_client (CSendQuotedPayment (payment st)) st)
  | ConnectDone (Some err), Connecting => submitted (Some err) st
  | SendDone r, Submitting => submitted r st
  | LookupDone r, Polling => lookedUp r st
  | OutgoingFulfill transfer fulfillment, _ => emit transfer fulfillment st
  | _, _ => st
  end.

(** A timeline: stimuli with the time at which they occur. *)
Definition run (st : State) (timeline : list (Z * Stimulus)) : State :=
  fold_left (λ st e, step (advance e.1 st) e.2) timeline st.
End PayRequest.

(** ** [ReceiverRejectionError] *)

Section Errors.
Context `{Platform}.

(** [extensible-error]'s base class keeps the message and names the
    error after its class; the constructor then sets [ilpErrorCode]. *)
Definition ReceiverRejectionError (message : JSValue) : JSError :=
  {| err_name := "ReceiverRejectionError";
     err_message := message;
     err_props := {[ "ilpErrorCode" := prop codes "F99_APPLICATION_ERROR" ]} |}.
End Errors.

(** ** Vocabulary of the properties *)

(** A required input that is missing ([undefined], [null]) or empty. *)
Definition missing (v : JSValue) : Prop :=
  v = VUndefined ∨ v = VNull ∨ v = VStr "".

(** The condition of a created request, or the error raised. *)
Definition requestCondition (r : JSError + JSObject) : JSError + JSValue :=
  match r with
  | inl e => inl e
  | inr request => inr (get request "condition")
  end.

(** The state of a call when [sendQuotedPayment] has been called at time
    [t] after a successful connect. *)
Definition submitting `{Platform} (sender : Sender) (st : State) (ref : nat)
    (t : Z) : State :=
  run (payRequest sender st ref).1 (payRequest sender st ref).2
      [(t, ConnectDone None)].

(** The state in which the listener has just been registered and the
    lookup issued: the connect succeeded at [t1] and the submission
    answered [r] at [t2], with the events [evs0] and [evs1] in between. *)
Definition listening `{Platform} (sender : Sender) (st : State) (ref : nat)
    (evs0 : list (Z * Stimulus)) (t1 : Z)
    (evs1 : list (Z * Stimulus)) (t2 : Z) (r : option JSError) : State :=
  run (payRequest sender st ref).1 (payRequest sender st ref).2
      (evs0 ++ [(t1, ConnectDone None)] ++ evs1 ++ [(t2, SendDone r)]).

(** *** The listener and the timer of one call *)

Section Listener.
Context `{Platform}.
Variable call : Call.
(** The listeners registered before the call, and the condition of the
    payment. *)
Variable listeners : list nat.
Variable condition : JSValue.

Local Abbreviation me := (fresh listeners).

(** The event is for this payment. *)
Definition matching (transfer : JSObject) : bool :=
  strict_eq (get transfer "executionCondition") condition.

(** The listener is registered and the timer is set to fire at [due]. *)
Definition Armed (due : Z) (st : State) : Prop :=
  st_timer st = Some due
  ∧ st_listeners st = listeners ++ [me] ∧ st_listener st = Some me
  ∧ st_listenerPromise st = Some Pending
  ∧ get (payment call st) "executionCondition" = condition.

(** The listener has been removed, the timer is not set, and
    [promiseFulfillmentListener] has settled with [s]. *)
Definition Released (s : Settled) (st : State) : Prop :=
  st_timer st = None ∧ st_listeners st = listeners
  ∧ st_listener st = Some me ∧ st_listenerPromise st = Some (Done s).

(** A timeline entry that is a fulfillment event. *)
Definition isFulfill (e : Z * Stimulus) : Prop :=
  match e.2 with OutgoingFulfill _ _ => True | _ => False end.

(** The call has neither listener nor timer yet and is in phase [ph]. *)
Definition Quiet (ph : Phase) (st : State) : Prop :=
  st_timer st = None ∧ st_listener st = None ∧ st_listeners st = listeners
  ∧ st_phase st = ph ∧ st_result st = Pending
  ∧ get (payment call st) "executionCondition" = condition.

(** The time for which [listenAndPoll] sets the timer in state [st]. *)
Definition dueTime (st : State) : Z :=
  st_clock st
  + timerDelay (moment_diff (moment (st_clock st) (get (payment call st) "expiresAt"))
                            (moment (st_clock st) VUndefined)).

(** The submission went through, or failed as a duplicate. *)
Definition accepted (r : option JSError) : Prop :=
  match r with
  | None => True
  | Some err => err_name err = "DuplicateIdError"
  end.

(** The lookup found no fulfillment: it failed with
    [MissingFulfillmentError] or yielded a falsy value. *)
Definition notFulfilled (r : JSError + JSValue) : Prop :=
  match r with
  | inl err => err_name err = "MissingFulfillmentError"
  | inr v => truthy v = false
  end.

(** A fulfillment event that, if it is for this payment, occurs at [due]
    or later. *)
Definition notBefore (due : Z) (e : Z * Stimulus) : Prop :=
  match e.2 with
  | OutgoingFulfill transfer _ => matching transfer = true → due ≤ e.1
  | _ => False
  end.

(** Either the call is armed and nothing is decided, or the timer has
    fired: then the listener is gone, and the chain, once it waits on the
    listener's promise, has rejected with the expiry error. *)
Definition Expiring (due : Z) (ph : Phase) (st : State) : Prop :=
  (Armed due st ∧ st_phase st = ph ∧ st_result st = Pending)
  ∨ (Released (Rejected expiredError) st
     ∧ match ph with
       | Waiting =>
           st_phase st = Finished
           ∧ st_result st = Done (Rejected expiredError)
       | _ => st_phase st = ph ∧ st_result st = Pending
       end).

(** The chain is in phase [ph] with result [res]; the listener is either
    still registered with the timer set, or it has been removed. *)
Definition Settling (due : Z) (ph : Phase) (res : Promise) (st : State) : Prop :=
  (Armed due st ∨ ∃ s, Released s st)
  ∧ st_phase st = ph ∧ st_result st = res.
End Listener.

(** ** A sample platform

    Simple stand-ins for the collaborators, to evaluate the model on
    concrete inputs: every integer prints in full, the uuid of a string
    is the string, a date is written as its number of milliseconds in
    decimal, an object reads as the current time, the keyed hash yields
    one byte per property of the object, and the cipher returns its
    randomness. *)
Fixpoint decimal (s : string) (acc : Z) : option Z :=
  match s with
  | EmptyString => Some acc
  | String c rest =>
      let d := Z.of_N (N_of_ascii c) - 48 in
      if (0 <=? d) && (d <=? 9) then decimal rest (10 * acc + d) else None
  end.

Definition epochMillis (s : string) : option Z :=
  match s with
  | EmptyString => None
  | _ => decimal s 0
  end.

Definition samplePlatform : Platform := {|
  numberToString := λ n, pretty n;
  deterministicUuid := λ s, s;
  momentParse := epochMillis;
  momentObject := λ now _, Some now;
  toISOString := λ t, pretty t;
  base64Decode := λ _, [];
  hmacJsonForPskCondition := λ o _, (λ _, Byte.x01) <$> map_to_list o;
  aesEncryptObject := λ r _ _, r;
  toConditionUri := hex;
  base64url := hex;
  codes := VObj {[ "F99_APPLICATION_ERROR" := VStr "F99" ]}
|}.

(** A platform whose uuid derivation collides on every pair of inputs. *)
Definition collidingPlatform : Platform := {|
  numberToString := @numberToString samplePlatform;
  deterministicUuid := λ _, "00000000-0000-4000-8000-000000000000";
  momentParse := @momentParse samplePlatform;
  momentObject := @momentObject samplePlatform;
  toISOString := @toISOString samplePlatform;
  base64Decode := @base64Decode samplePlatform;
  hmacJsonForPskCondition := @hmacJsonForPskCondition samplePlatform;
  aesEncryptObject := @aesEncryptObject samplePlatform;
  toConditionUri := @toConditionUri samplePlatform;
  base64url := @base64url samplePlatform;
  codes := @codes samplePlatform
|}.

Definition sampleSender : Sender :=
  createSender {| opts_maxHoldDuration := None;
                  opts_defaultRequestTimeout := None;
                  opts_uuidSeed := Some [Byte.x01; Byte.xab] |} [].

Definition sampleWorld : World :=
  {| connect_response := None;
     quote_response := λ _, inr (VObj {[ "sourceAmount" := VStr "12";
                                          "connectorAccount" := VStr "connie" ]});
     now := 1000 |}.

(** A client at rest at time 0, before a call: [payRequest] sets the
    fields that belong to the call. *)
Definition idle (store : gmap nat JSObject) (listeners : list nat) : State :=
  mkState 0 store listeners [] None None None Finished Pending.

(** A quoted payment that expires at 9000 ms, held at reference 5. *)
Definition sampleParams : JSObject :=
  {[ "executionCondition" := VStr "cc:0";
     "sourceAmount" := VStr "7";
     "expiresAt" := VStr "9000" ]}.

Definition sampleStore : gmap nat JSObject := {[ 5%nat := sampleParams ]}.

(** A request that expires at 60000 ms; [sampleWorld] quotes it at
    1000 ms and [sampleSender] holds money for at most 10 seconds. *)
Definition sampleRequest : JSObject :=
  {[ "address" := VStr "g.bob.1f";
     "amount" := VStr "100";
     "condition" := VStr "cc:0";
     "expires_at" := VStr "60000" ]}.

Definition sampleEntropy : Entropy :=
  {| e_now := 1000; e_uuid_v4 := "110ec58a-a0f2-4ac4-8393-c866d813b8d1";
     e_cipher := [Byte.x5a] |}.

Definition otherEntropy : Entropy :=
  {| e_now := 99000; e_uuid_v4 := "7d444840-9dc0-11d1-b245-5ffdce74fad2";
     e_cipher := [Byte.xc3] |}.

(** Parameters of [createRequest] with an id, an expiry and data. *)
Definition sampleCreateParams : JSObject :=
  {[ "destinationAccount" := VStr "g.bob";
     "destinationAmount" := VStr "100";
     "sharedSecret" := VStr "c2VjcmV0";
     "id" := VStr "1f";
     "expiresAt" := VStr "30000";
     "data" := VObj {[ "memo" := VStr "thanks" ]} ]}.

(** A fulfillment event for the condition [c]. *)
Definition fulfillEvent (c proof : string) : Stimulus :=
  OutgoingFulfill {[ "executionCondition" := VStr c ]} (VStr proof).

(** The sample payment on the timeout path: submitted at 2 ms, an event
    for another payment at 3 ms, no fulfillment on record at 4 ms, and
    the matching event only after the expiry at 9000 ms. *)
Definition sampleTimedOut : State :=
  advance 10000
    (@run samplePlatform
       (@payRequest samplePlatform sampleSender (idle sampleStore [7%nat]) 5).1
       (@listening samplePlatform sampleSender (idle sampleStore [7%nat]) 5
          [] 1 [] 2 None)
       ([(3, fulfillEvent "cc:1" "other")]
        ++ [(4, LookupDone (inl (mkError "MissingFulfillmentError" VNull ∅)))]
        ++ [(9500, fulfillEvent "cc:0" "late")])).

(** The sample payment when the lookup finds a fulfillment at 4 ms. *)
Definition sampleAlreadyFulfilled : State :=
  @run samplePlatform
    (@payRequest samplePlatform sampleSender (idle sampleStore [7%nat]) 5).1
    (@listening samplePlatform sampleSender (idle sampleStore [7%nat]) 5
       [] 1 [] 2 None)
    [(4, LookupDone (inr (VStr "proof")))].

(** ** Vocabulary of the further properties *)

(** The checks of [quoteSourceAmount] and [quoteDestinationAmount]: the
    address is a non-empty string and the amount is truthy. *)
Definition validAmountQuery (destinationAddress amount : JSValue) : bool :=
  truthy destinationAddress && is_string destinationAddress && truthy amount.

(** The checks of [quoteRequest]. *)
Definition validRequest (request : JSObject) : bool :=
  truthy (get request "address") && truthy (get request "amount")
  && truthy (get request "condition").

(** The queries sent to [client.quote]. *)
Definition sourceQuery `{Platform} (destinationAddress sourceAmount : JSValue)
  : JSObject :=
  {[ "destinationAddress" := destinationAddress;
     "sourceAmount" := VStr (to_string sourceAmount) ]}.

Definition destinationQuery `{Platform}
    (destinationAddress destinationAmount : JSValue) : JSObject :=
  {[ "destinationAddress" := destinationAddress;
     "destinationAmount" := VStr (to_string destinationAmount) ]}.

Definition requestQuery (request : JSObject) : JSObject :=
  {[ "destinationAddress" := get request "address";
     "destinationAmount" := get request "amount" ]}.

Definition emptyQuoteError : JSError :=
  Error "Got empty quote response from the connector".

(** The object [quoteRequest] resolves with, for the quote [quote]
    received at time [t]. *)
Definition quotedParams `{Platform} (sender : Sender) (t : Z)
    (request : JSObject) (quote : JSValue) : JSObject :=
  {[ "sourceAmount" := VStr (to_string (prop quote "sourceAmount"));
     "connectorAccount" := prop quote "connectorAccount";
     "destinationAmount" := VStr (to_string (get request "amount"));
     "destinationAccount" := get request "address";
     "destinationMemo" :=
       VObj {[ "data" := get request "data";
               "expires_at" := get request "expires_at" ]};
     "expiresAt" := clampedExpiry sender t (get request "expires_at");
     "executionCondition" := get request "condition" ]}.

(** A world in which the client connects and answers the query [q] with
    [quote]. *)
Definition answers (w : World) (q : JSObject) (quote : JSValue) : Prop :=
  connect_response w = None ∧ quote_response w q = inr quote.

(** Sample worlds: the connector returns nothing; the client cannot
    connect; the quote fails. *)
Definition emptyQuoteWorld : World :=
  {| connect_response := None; quote_response := λ _, inr VNull; now := 1000 |}.

Definition offlineWorld : World :=
  {| connect_response := Some (Error "offline");
     quote_response := λ _, inr VNull; now := 1000 |}.

Definition noRouteWorld : World :=
  {| connect_response := None;
     quote_response := λ _, inl (Error "offline"); now := 1000 |}.

(** The sample request without an expiry. *)
Definition sampleOpenRequest : JSObject := delete "expires_at" sampleRequest.

(** The quote returned in [sampleWorld]. *)
Definition sampleQuote : JSValue :=
  VObj {[ "sourceAmount" := VStr "12"; "connectorAccount" := VStr "connie" ]}.

(** Reading hexadecimal back ([Buffer.from(s, 'hex')] on well-formed
    input): the value of a digit, and the bytes of a string of digit
    pairs. *)
Definition unhex_digit (c : ascii) : option N :=
  (λ p : nat * ascii, N.of_nat p.1)
    <$> list_find (λ d, d = c) (list_ascii_of_string "0123456789abcdef").

Definition unhex_byte (hi lo : ascii) : option Byte.byte :=
  h ← unhex_digit hi; l ← unhex_digit lo; Byte.of_N (16 * h + l)%N.

Fixpoint unhex (s : string) : option Buffer :=
  match s with
  | EmptyString => Some []
  | String hi (String lo rest) =>
      b ← unhex_byte hi lo; bs ← unhex rest; Some (b :: bs)
  | String _ EmptyString => None
  end.

(** Options without a seed, and with each of two seeds. *)
Definition noSeedOpts : Opts :=
  {| opts_maxHoldDuration := Some 0; opts_defaultRequestTimeout := Some 45;
     opts_uuidSeed := None |}.

Definition seedOpts (seed : Buffer) : Opts :=
  {| opts_maxHoldDuration := None; opts_defaultRequestTimeout := None;
     opts_uuidSeed := Some seed |}.

(** The discriminator appended to the address: [params.id || uuid.v4()]
    as a string. *)
Definition discriminator `{Platform} (env : Entropy) (params : JSObject)
  : string :=
  to_string (or (get params "id") (VStr (e_uuid_v4 env))).

(** The [data] property of a request created with data. *)
Definition encryptedData `{Platform} (env : Entropy) (params : JSObject)
    (sharedSecret : Buffer) : JSValue :=
  VObj {[ "blob" :=
            VStr (base64url (aesEncryptObject (e_cipher env) (get params "data")
                                              sharedSecret)) ]}.

(** The condition derived from the hashed fields. *)
Definition derivedCondition `{Platform} (fields : JSObject) (secret : string)
  : JSValue :=
  VStr (toConditionUri (hmacJsonForPskCondition fields (base64Decode secret))).

(** Parameters without an id and without an expiry. *)
Definition sampleBareParams : JSObject :=
  {[ "destinationAccount" := VStr "g.bob";
     "destinationAmount" := VStr "100";
     "sharedSecret" := VStr "c2VjcmV0" ]}.

(** Parameters with nothing but the shared secret. *)
Definition secretOnlyParams : JSObject := {[ "sharedSecret" := VStr "c2VjcmV0" ]}.

(** *** Further vocabulary for [payRequest] *)

(** A failure that neither [catch] of [payRequest] handles. *)
Definition fatal (err : JSError) : Prop :=
  err_name err ≠ "DuplicateIdError" ∧ err_name err ≠ "MissingFulfillmentError".

(** A duplicate-id failure, as a ledger plugin reports it. *)
Definition duplicateIdError : JSError :=
  mkError "DuplicateIdError" (VStr "transfer exists") ∅.

Section ListenPathVocabulary.
Context `{Platform}.
Variable call : Call.
Variable listeners : list nat.
Variable condition : JSValue.

(** A fulfillment event for another payment that occurs before [due]. *)
Definition otherBefore (due : Z) (e : Z * Stimulus) : Prop :=
  e.1 < due
  ∧ match e.2 with
    | OutgoingFulfill transfer _ => matching condition transfer = false
    | _ => False
    end.

(** The call is armed, its timer is not due yet, and nothing is
    decided. *)
Definition Holding (due : Z) (ph : Phase) (st : State) : Prop :=
  Armed call listeners condition due st ∧ st_clock st < due
  ∧ st_phase st = ph ∧ st_result st = Pending.

(** The listener has been removed with [promiseFulfillmentListener]
    settled as [s]; the chain is in phase [ph] with result [res]. *)
Definition Kept (s : Settled) (ph : Phase) (res : Promise) (st : State) : Prop :=
  Released listeners s st ∧ st_phase st = ph ∧ st_result st = res.
End ListenPathVocabulary.

(** The sample call once its listener is registered, at 2 ms. *)
Definition sampleListening : State :=
  @listening samplePlatform sampleSender (idle sampleStore [7%nat]) 5
    [] 1 [] 2 None.

Definition sampleCall : Call :=
  (@payRequest samplePlatform sampleSender (idle sampleStore [7%nat]) 5).1.

Definition sampleTransfer : JSObject := {[ "executionCondition" := VStr "cc:0" ]}.

Definition missingFulfillment : JSError :=
  mkError "MissingFulfillmentError" VNull ∅.


(** The promise returned by [payRequest] is pending, or the chain has
    finished. *)
Definition Consistent (st : State) : Prop :=
  st_result st = Pending ∨ st_phase st = Finished.

(** From [st] to [st'] a finished chain stays finished with its result,
    and the result of an unfinished chain changes only by finishing. *)
Definition Settles (st st' : State) : Prop :=
  (st_phase st = Finished →
   st_phase st' = Finished ∧ st_result st' = st_result st)
  ∧ (st_phase st ≠ Finished →
     st_result st' = st_result st ∨ st_phase st' = Finished).

(** *** The calls one [payRequest] makes on the client *)

(** The chain is past the submission. *)
Definition late (ph : Phase) : Prop := ph ≠ Connecting ∧ ph ≠ Submitting.

(** The two states agree on what the client sees of the call. *)
Definition SameClient (st st' : State) : Prop :=
  st_listener st' = st_listener st ∧ st_timer st' = st_timer st
  ∧ st_listeners st' = st_listeners st ∧ st_log st' = st_log st.

Section Calls.
Variable call : Call.
(** The listeners and the log when the call has connected, and the
    payment object it submits. *)
Variable listeners : list nat.
Variable log0 : list ClientCall.
Variable sent : JSObject.

Local Abbreviation me := (fresh listeners).

Definition registration : list ClientCall :=
  [COn "outgoing_fulfill" me; CGetFulfillment (call_transferId call)].

Definition removal : list ClientCall :=
  [CRemoveListener "outgoing_fulfill" me].

(** No listener yet; [calls] were made after the connect. *)
Definition Unregistered (calls : list ClientCall) (st : State) : Prop :=
  st_listener st = None ∧ st_timer st = None ∧ st_listeners st = listeners
  ∧ st_log st = log0 ++ calls.

(** The listener is registered and the timer set. *)
Definition Registered (calls : list ClientCall) (st : State) : Prop :=
  st_listener st = Some me ∧ is_Some (st_timer st)
  ∧ st_listeners st = listeners ++ [me]
  ∧ st_log st = log0 ++ calls ++ registration.

(** The listener has been removed again and the timer is not set. *)
Definition Unlistened (calls : list ClientCall) (st : State) : Prop :=
  st_listener st = Some me ∧ st_timer st = None ∧ st_listeners st = listeners
  ∧ st_log st = log0 ++ calls ++ registration ++ removal.

(** Past the submission: the transfer was submitted or not, and the
    listener is in one of its three stages. *)
Definition Listened (st : State) : Prop :=
  ∃ calls, (calls = [] ∨ calls = [CSendQuotedPayment sent])
           ∧ (Unregistered calls st ∨ Registered calls st ∨ Unlistened calls st).

Definition Trace (st : State) : Prop :=
  payment call st = sent
  ∧ ((st_phase st = Connecting ∧ Unregistered [] st)
     ∨ (st_phase st = Submitting ∧ Unregistered [CSendQuotedPayment sent] st)
     ∨ (late (st_phase st) ∧ Listened st)).
End Calls.

(** * Properties *)

(** ** Sample evaluations *)

Example hex_bytes : hex [Byte.x00; Byte.x1f; Byte.xa5] = "001fa5".
Proof. reflexivity. Qed.

Example sampleSender_defaults :
  maxHoldDuration sampleSender = 10 ∧ defaultRequestTimeout sampleSender = 30 ∧
  uuidSeed sampleSender = "01ab".
Proof. done. Qed.

(** The sample request is quoted with the expiry clamped to 11000 ms. *)
Example quoteRequest_sample :
  (settle (@quoteRequest samplePlatform sampleSender sampleRequest) sampleWorld).1
  = Resolved (VObj
      {[ "sourceAmount" := VStr "12";
         "connectorAccount" := VStr "connie";
         "destinationAmount" := VStr "100";
         "destinationAccount" := VStr "g.bob.1f";
         "destinationMemo" :=
           VObj {[ "data" := VUndefined; "expires_at" := VStr "60000" ]};
         "expiresAt" := VStr "11000";
         "executionCondition" := VStr "cc:0" ]}).
Proof. by vm_compute. Qed.

(** The fulfillment event arrives at 3000 ms, before the expiry at
    9000 ms: the call resolves with the proof, the timer is cleared and
    the listener removed. *)
Example payRequest_fulfilled_sample :
  let final :=
    @run samplePlatform
      (@payRequest samplePlatform sampleSender (idle sampleStore [7%nat]) 5).1
      (@listening samplePlatform sampleSender (idle sampleStore [7%nat]) 5
         [] 1 [] 2 None)
      [(4, LookupDone (inl (mkError "MissingFulfillmentError" VNull ∅)));
       (3000, fulfillEvent "cc:0" "proof")] in
  st_result final = Done (Resolved (VStr "proof"))
  ∧ st_timer final = None
  ∧ st_listeners final = [7%nat]
  ∧ st_result (advance 10000 final) = Done (Resolved (VStr "proof")).
Proof. by vm_compute. Qed.

(** ** JavaScript helpers *)

Lemma get_insert_eq (o : JSObject) k v : get (<[k := v]> o) k = v.
Proof. unfold get. by rewrite lookup_insert_eq. Qed.

Lemma get_insert_ne (o : JSObject) k k' v :
  k ≠ k' → get (<[k := v]> o) k' = get o k'.
Proof. intros. unfold get. by rewrite lookup_insert_ne. Qed.

Lemma assign_singleton (o : JSObject) k v : assign o {[ k := v ]} = <[k := v]> o.
Proof. unfold assign. by rewrite insert_union_singleton_l. Qed.

Lemma assign_empty (o : JSObject) : assign ∅ o = o.
Proof. unfold assign. apply (right_id_L ∅ (∪)). Qed.

Lemma append_inj_l (p a b : string) : p +:+ a = p +:+ b → a = b.
Proof. induction p as [|c p IH]; simpl; [done | intros [= ?]; auto]. Qed.

(** ** The error class *)

(** C10: every [ReceiverRejectionError] carries the catalog's
    [F99_APPLICATION_ERROR] code in [ilpErrorCode], whatever the message:
    the field does not depend on the message. *)
Theorem ReceiverRejectionError_code `{Platform} :
  ∀ message : JSValue,
    get (err_props (ReceiverRejectionError message)) "ilpErrorCode"
      = prop codes "F99_APPLICATION_ERROR"
    ∧ ∀ message' : JSValue,
        get (err_props (ReceiverRejectionError message')) "ilpErrorCode"
        = get (err_props (ReceiverRejectionError message)) "ilpErrorCode".
Proof.
  intros message. split; [|intros message']; cbn [ReceiverRejectionError err_props];
    unfold get; by rewrite ?lookup_singleton_eq.
Qed.

Example ReceiverRejectionError_sample :
  get (err_props (@ReceiverRejectionError samplePlatform (VStr "no"))) "ilpErrorCode"
  = VStr "F99".
Proof. reflexivity. Qed.

(** ** The transfer id *)

Section TransferId.
Context `{Platform}.

Lemma payRequest_transferId sender st ref :
  call_transferId (payRequest sender st ref).1 = transferId sender (deref st ref).
Proof. reflexivity. Qed.
End TransferId.

(** C1: the transfer id that [payRequest] computes is the uuid derived
    from the seed followed by the execution condition, and nothing else:
    two calls on senders with the same seed, for parameters with the
    same condition, compute the same id whatever the other fields, the
    store and the client state are.  Two calls of one sender for
    different condition strings hash different inputs, so if they
    compute the same id, the uuid derivation collides on two distinct
    inputs. *)
Theorem transferId_deterministic `{Platform} :
  (∀ sender st ref (c : string),
     get (deref st ref) "executionCondition" = VStr c →
     call_transferId (payRequest sender st ref).1
       = deterministicUuid (uuidSeed sender +:+ c))
  ∧ (∀ sender sender' st st' ref ref',
       uuidSeed sender = uuidSeed sender' →
       get (deref st ref) "executionCondition"
         = get (deref st' ref') "executionCondition" →
       call_transferId (payRequest sender st ref).1
         = call_transferId (payRequest sender' st' ref').1)
  ∧ (∀ sender st st' ref ref' (c c' : string),
       get (deref st ref) "executionCondition" = VStr c →
       get (deref st' ref') "executionCondition" = VStr c' →
       c ≠ c' →
       call_transferId (payRequest sender st ref).1
         = call_transferId (payRequest sender st' ref').1 →
       uuidSeed sender +:+ c ≠ uuidSeed sender +:+ c'
       ∧ deterministicUuid (uuidSeed sender +:+ c)
         = deterministicUuid (uuidSeed sender +:+ c')).
Proof.
  split; [|split].
  - intros sender st ref c Hc.
    rewrite payRequest_transferId. unfold transferId. by rewrite Hc.
  - intros sender sender' st st' ref ref' Hseed Hcond.
    rewrite !payRequest_transferId. unfold transferId. by rewrite Hseed, Hcond.
  - intros sender st st' ref ref' c c' Hc Hc' Hne Hid. split.
    + intros Heq. by apply append_inj_l in Heq.
    + rewrite !payRequest_transferId in Hid. unfold transferId in Hid.
      by rewrite Hc, Hc' in Hid.
Qed.

Lemma transferId_deterministic_witness :
  call_transferId
    (@payRequest samplePlatform sampleSender
       (idle {[ 1%nat := ({[ "executionCondition" := VStr "cc:0:3:abc:32";
                             "sourceAmount" := VStr "5" ]} : JSObject) ]} []) 1).1
  = "01abcc:0:3:abc:32"
  ∧ call_transferId
      (@payRequest samplePlatform sampleSender
         (idle {[ 1%nat := ({[ "executionCondition" := VStr "cc:0:3:abc:32";
                               "sourceAmount" := VStr "5" ]} : JSObject) ]} []) 1).1
    = call_transferId
        (@payRequest samplePlatform sampleSender
           (idle {[ 4%nat := ({[ "executionCondition" := VStr "cc:0:3:abc:32" ]}
                                : JSObject) ]} [2%nat]) 4).1
  ∧ "01ab" +:+ "cc:a" ≠ "01ab" +:+ "cc:b"
  ∧ @deterministicUuid collidingPlatform ("01ab" +:+ "cc:a")
    = @deterministicUuid collidingPlatform ("01ab" +:+ "cc:b").
Proof.
  split; [|split].
  - exact (proj1 (@transferId_deterministic samplePlatform) sampleSender
             (idle {[ 1%nat := ({[ "executionCondition" := VStr "cc:0:3:abc:32";
                                   "sourceAmount" := VStr "5" ]} : JSObject) ]} [])
             1%nat "cc:0:3:abc:32" eq_refl).
  - apply (proj1 (proj2 (@transferId_deterministic samplePlatform)));
      reflexivity.
  - exact (proj2 (proj2 (@transferId_deterministic collidingPlatform))
             sampleSender
             (idle {[ 1%nat := ({[ "executionCondition" := VStr "cc:a" ]}
                                  : JSObject) ]} [])
             (idle {[ 1%nat := ({[ "executionCondition" := VStr "cc:b" ]}
                                  : JSObject) ]} [])
             1%nat 1%nat "cc:a" "cc:b"
             eq_refl eq_refl ltac:(discriminate) eq_refl).
Defined.

(** ** The store *)

Section Store.
Context `{Platform}.
Variable call : Call.

Lemma settleListener_store s st :
  st_store (settleListener s st) = st_store st.
Proof. unfold settleListener. by repeat case_match. Qed.

Lemma lookedUp_store r st : st_store (lookedUp r st) = st_store st.
Proof. unfold lookedUp. by repeat case_match. Qed.

Lemma submitted_store r st : st_store (submitted call r st) = st_store st.
Proof.
  unfold submitted. repeat case_match; by rewrite ?lookedUp_store.
Qed.

Lemma advance_store t st : st_store (advance t st) = st_store st.
Proof.
  unfold advance, timeout. cbn.
  repeat case_match; by rewrite ?settleListener_store.
Qed.

Lemma emit_store transfer fulfillment st :
  st_store (emit call transfer fulfillment st) = st_store st.
Proof.
  unfold emit, fulfillmentListener.
  repeat case_match; by rewrite ?settleListener_store.
Qed.

Lemma step_store st s : st_store (step call st s) = st_store st.
Proof.
  unfold step.
  repeat case_match;
    by rewrite ?submitted_store, ?lookedUp_store, ?emit_store.
Qed.

(** No step of the call writes to the store. *)
Lemma run_store timeline st : st_store (run call st timeline) = st_store st.
Proof.
  revert st. induction timeline as [|e tl IH]; intros st; [done|].
  cbn. unfold run in IH. by rewrite IH, step_store, advance_store.
Qed.
End Store.

(** C9: [payRequest] writes [uuid] into the object it was given, not
    into a copy: once the call has started, and after any timeline, the
    object behind the caller's reference has [uuid] equal to the transfer
    id and every other property as before; other objects are untouched. *)
Theorem payRequest_mutates_argument `{Platform} :
  ∀ sender st ref (obj : JSObject) timeline,
    st_store st !! ref = Some obj →
    let final :=
      run (payRequest sender st ref).1 (payRequest sender st ref).2 timeline in
    st_store final !! ref
      = Some (<[ "uuid" := VStr (transferId sender obj) ]> obj)
    ∧ get (deref final ref) "uuid"
      = VStr (call_transferId (payRequest sender st ref).1)
    ∧ (∀ k, k ≠ "uuid" → deref final ref !! k = obj !! k)
    ∧ (∀ ref', ref' ≠ ref → st_store final !! ref' = st_store st !! ref').
Proof.
  intros sender st ref obj timeline Hobj final.
  assert (Hstore : st_store final
                   = <[ ref := <[ "uuid" := VStr (transferId sender obj) ]> obj ]>
                       (st_store st)).
  { subst final. rewrite run_store. cbn. unfold deref.
    by rewrite Hobj, assign_singleton. }
  assert (Hderef : deref final ref
                   = <[ "uuid" := VStr (transferId sender obj) ]> obj).
  { unfold deref. by rewrite Hstore, lookup_insert_eq. }
  repeat split.
  - by rewrite Hstore, lookup_insert_eq.
  - rewrite Hderef, get_insert_eq, payRequest_transferId.
    unfold deref. by rewrite Hobj.
  - intros k Hk. by rewrite Hderef, lookup_insert_ne.
  - intros ref' Hne. by rewrite Hstore, lookup_insert_ne.
Qed.

Lemma payRequest_mutates_argument_witness :
  let st := idle sampleStore [] in
  let final :=
    @run samplePlatform
      (@payRequest samplePlatform sampleSender st 5).1
      (@payRequest samplePlatform sampleSender st 5).2
      [(1, ConnectDone None); (2, SendDone None)] in
  get (deref final 5) "uuid" = VStr "01abcc:0"
  ∧ get (deref final 5) "sourceAmount" = VStr "7".
Proof.
  intros st final.
  destruct (@payRequest_mutates_argument samplePlatform sampleSender st 5%nat
              sampleParams [(1, ConnectDone None); (2, SendDone None)] eq_refl)
    as (_ & Huuid & Hframe & _).
  split.
  - exact Huuid.
  - unfold get. fold final in Hframe.
    by rewrite (Hframe "sourceAmount" ltac:(discriminate)).
Defined.

(** ** Quoting: validation *)

Ltac in_list :=
  repeat first [ by apply list_elem_of_here | apply list_elem_of_further ].

Lemma missing_falsy v : missing v → truthy v = false.
Proof. by intros [-> | [-> | ->]]. Qed.

(** The rejections of the three quoting functions on a missing input are
    plain [Error]s: their name is not [InvalidArgumentError]. *)
Lemma quote_validation_error_name :
  settle (@quoteSourceAmount samplePlatform (VStr "") (VStr "10")) sampleWorld
    = (Rejected (Error "Must provide destination address"), [])
  ∧ settle (@quoteDestinationAmount samplePlatform (VStr "g.bob") VUndefined)
           sampleWorld
    = (Rejected (Error "Must provide destination amount"), [])
  ∧ settle (@quoteRequest samplePlatform sampleSender
              {[ "address" := VStr "g.bob"; "amount" := VStr "10" ]}) sampleWorld
    = (Rejected (Error "Malformed payment request: no condition"), [])
  ∧ err_name (Error "Must provide destination address") ≠ "InvalidArgumentError"
  ∧ err_name (Error "Must provide destination amount") ≠ "InvalidArgumentError"
  ∧ err_name (Error "Malformed payment request: no condition")
    ≠ "InvalidArgumentError".
Proof. repeat split; (reflexivity || discriminate). Qed.

(** C8 (amended): when a required input of a quoting function is missing
    or empty, the call rejects with a plain [Error] and the client has
    not been called.  The message names the first input, in the order in
    which they are checked, that fails its check: a missing address is
    always the one named; a missing amount is named when the address
    passes its check; a missing condition is named when the address and
    the amount pass theirs. *)
Theorem quote_validation_rejects `{Platform} :
  ∀ sender w,
    (∀ destinationAddress sourceAmount,
       (missing destinationAddress →
        settle (quoteSourceAmount destinationAddress sourceAmount) w
        = (Rejected (Error "Must provide destination address"), []))
       ∧ (missing sourceAmount →
          settle (quoteSourceAmount destinationAddress sourceAmount) w
          = (Rejected
               (Error (if truthy destinationAddress && is_string destinationAddress
                       then "Must provide source amount"
                       else "Must provide destination address")), [])))
    ∧ (∀ destinationAddress destinationAmount,
         (missing destinationAddress →
          settle (quoteDestinationAmount destinationAddress destinationAmount) w
          = (Rejected (Error "Must provide destination address"), []))
         ∧ (missing destinationAmount →
            settle (quoteDestinationAmount destinationAddress destinationAmount) w
            = (Rejected
                 (Error (if truthy destinationAddress
                            && is_string destinationAddress
                         then "Must provide destination amount"
                         else "Must provide destination address")), [])))
    ∧ (∀ request : JSObject,
         (missing (get request "address") →
          settle (quoteRequest sender request) w
          = (Rejected (Error "Malformed payment request: no address"), []))
         ∧ (missing (get request "amount") →
            settle (quoteRequest sender request) w
            = (Rejected
                 (Error (if truthy (get request "address")
                         then "Malformed payment request: no amount"
                         else "Malformed payment request: no address")), []))
         ∧ (missing (get request "condition") →
            settle (quoteRequest sender request) w
            = (Rejected
                 (Error (if truthy (get request "address")
                         then if truthy (get request "amount")
                              then "Malformed payment request: no condition"
                              else "Malformed payment request: no amount"
                         else "Malformed payment request: no address")), []))).
Proof.
  intros sender w. split; [|split].
  - intros a b. split; intros Hm; apply missing_falsy in Hm;
      unfold quoteSourceAmount, settle.
    + by rewrite Hm.
    + destruct (truthy a), (is_string a); cbn [negb orb andb];
        by rewrite ?Hm.
  - intros a b. split; intros Hm; apply missing_falsy in Hm;
      unfold quoteDestinationAmount, settle.
    + by rewrite Hm.
    + destruct (truthy a), (is_string a); cbn [negb orb andb];
        by rewrite ?Hm.
  - intros request. split; [|split]; intros Hm; apply missing_falsy in Hm;
      unfold quoteRequest, settle.
    + by rewrite Hm.
    + destruct (truthy (get request "address")); cbn [negb];
        by rewrite ?Hm.
    + destruct (truthy (get request "address")); cbn [negb]; [|done].
      destruct (truthy (get request "amount")); cbn [negb]; [|done].
      by rewrite Hm.
Qed.

Lemma quote_validation_rejects_witness :
  settle (@quoteSourceAmount samplePlatform VUndefined (VNum 5)) sampleWorld
  = (Rejected (Error "Must provide destination address"), [])
  ∧ settle (@quoteSourceAmount samplePlatform (VStr "g.bob") VNull) sampleWorld
    = (Rejected (Error "Must provide source amount"), [])
  ∧ settle (@quoteDestinationAmount samplePlatform (VStr "g.bob") (VStr ""))
           sampleWorld
    = (Rejected (Error "Must provide destination amount"), [])
  ∧ settle (@quoteRequest samplePlatform sampleSender
              {[ "address" := VStr "g.bob"; "condition" := VStr "cc:0" ]})
           sampleWorld
    = (Rejected (Error "Malformed payment request: no amount"), [])
  ∧ settle (@quoteRequest samplePlatform sampleSender
              {[ "address" := VStr "g.bob"; "amount" := VStr "10" ]})
           sampleWorld
    = (Rejected (Error "Malformed payment request: no condition"), []).
Proof.
  destruct (@quote_validation_rejects samplePlatform sampleSender sampleWorld)
    as (Hsrc & Hdst & Hreq).
  split; [|split; [|split; [|split]]].
  - exact (proj1 (Hsrc VUndefined (VNum 5)) (or_introl eq_refl)).
  - exact (proj2 (Hsrc (VStr "g.bob") VNull) (or_intror (or_introl eq_refl))).
  - exact (proj2 (Hdst (VStr "g.bob") (VStr ""))
             (or_intror (or_intror eq_refl))).
  - exact (proj1 (proj2 (Hreq {[ "address" := VStr "g.bob";
                                 "condition" := VStr "cc:0" ]}))
             (or_introl eq_refl)).
  - exact (proj2 (proj2 (Hreq {[ "address" := VStr "g.bob";
                                 "amount" := VStr "10" ]}))
             (or_introl eq_refl)).
Defined.

(** Inputs that pass validation reach the client. *)
Example quoteSourceAmount_sample :
  settle (@quoteSourceAmount samplePlatform (VStr "g.bob") (VNum 5)) sampleWorld
  = (Resolved (VStr "undefined"),
     [CConnect;
      CQuote {[ "destinationAddress" := VStr "g.bob"; "sourceAmount" := VStr "5" ]}]).
Proof. reflexivity. Qed.

(** ** Quoting: the clamped expiry *)

Section Expiry.
Context `{Platform}.
Variable sender : Sender.

Lemma clampedExpiry_min now s t :
  momentParse s = Some t →
  clampedExpiry sender now (VStr s)
  = VStr (toISOString (Z.min t (now + 1000 * maxHoldDuration sender))).
Proof.
  intros Ht. unfold clampedExpiry. cbn. rewrite Ht. cbn.
  destruct (Z.ltb_spec (now + 1000 * maxHoldDuration sender) t).
  - cbn. by rewrite Z.min_r by lia.
  - cbn. by rewrite Z.min_l by lia.
Qed.
End Expiry.

(** C3: when [quoteRequest] returns payment parameters for a request whose
    expiry is the instant [t], their [expiresAt] is the earlier of [t] and
    the time of the quote plus [maxHoldDuration] seconds; for an expiry
    further away than that it is exactly the time of the quote plus
    [maxHoldDuration]. *)
Theorem quoteRequest_expiry_clamped `{Platform} :
  ∀ sender (request : JSObject) w quote s t,
    truthy (get request "address") = true →
    truthy (get request "amount") = true →
    truthy (get request "condition") = true →
    connect_response w = None →
    quote_response w {[ "destinationAddress" := get request "address";
                        "destinationAmount" := get request "amount" ]}
      = inr quote →
    truthy quote = true →
    get request "expires_at" = VStr s →
    momentParse s = Some t →
    ∃ (params : JSObject) log,
      settle (quoteRequest sender request) w = (Resolved (VObj params), log)
      ∧ get params "expiresAt"
        = VStr (toISOString (Z.min t (now w + 1000 * maxHoldDuration sender)))
      ∧ (now w + 1000 * maxHoldDuration sender < t →
         get params "expiresAt"
         = VStr (toISOString (now w + 1000 * maxHoldDuration sender))).
Proof.
  intros sender request w quote s t Ha Hb Hc Hconn Hquote Hq Hexp Ht.
  unfold quoteRequest, settle. rewrite Ha, Hb, Hc. cbn [negb].
  unfold mbind, chain_bind, client_connect, client_quote, clock, mret, chain_ret.
  rewrite Hconn, Hquote, Hq. cbn [negb].
  eexists _, _. split; [reflexivity|].
  assert (Hget : ∀ o : JSObject, ∀ v, o !! "expiresAt" = Some v → get o "expiresAt" = v).
  { intros o v Ho. unfold get. by rewrite Ho. }
  rewrite (Hget _ (clampedExpiry sender (now w) (get request "expires_at")))
    by by simplify_map_eq.
  rewrite Hexp, (clampedExpiry_min _ _ _ _ Ht).
  split; [done|]. intros Hlt. by rewrite Z.min_r by lia.
Qed.

Lemma quoteRequest_expiry_clamped_witness :
  ∃ (params : JSObject) log,
    settle (@quoteRequest samplePlatform sampleSender sampleRequest) sampleWorld
      = (Resolved (VObj params), log)
    ∧ get params "expiresAt" = VStr "11000".
Proof.
  destruct (@quoteRequest_expiry_clamped samplePlatform sampleSender sampleRequest
              sampleWorld
              (VObj {[ "sourceAmount" := VStr "12";
                       "connectorAccount" := VStr "connie" ]})
              "60000" 60000 eq_refl eq_refl eq_refl eq_refl eq_refl eq_refl eq_refl eq_refl)
    as (params & log & Hsettle & _ & Hclamp).
  exists params, log. split; [exact Hsettle|].
  apply Hclamp. vm_compute. reflexivity.
Defined.

(** ** [createRequest]: the condition *)

Section Condition.
Context `{Platform}.

(** With the id and the expiry supplied, the hashed fields are the
    caller's: neither the clock, nor the random id, nor the default
    timeout enters. *)
Lemma conditionFields_supplied sender sender' env env' (params : JSObject) :
  truthy (get params "id") = true →
  truthy (get params "expiresAt") = true →
  conditionFields sender env params = conditionFields sender' env' params.
Proof.
  intros Hid Hexp. unfold conditionFields, or. by rewrite Hid, Hexp.
Qed.

Lemma conditionFields_ignores_data sender env (params : JSObject) d :
  conditionFields sender env (<[ "data" := d ]> params)
  = conditionFields sender env params.
Proof.
  unfold conditionFields.
  by rewrite !(get_insert_ne params "data") by discriminate.
Qed.

Lemma conditionFields_dom sender env (params : JSObject) :
  dom (conditionFields sender env params)
  = ({[ "address"; "amount"; "expires_at" ]} : gset string).
Proof.
  unfold conditionFields. rewrite !dom_insert_L, dom_singleton_L. set_solver.
Qed.

Lemma createRequest_condition sender env (params : JSObject) s :
  get params "sharedSecret" = VStr s →
  ∃ request,
    createRequest sender env params = inr request
    ∧ get request "condition"
      = VStr (toConditionUri
                (hmacJsonForPskCondition (conditionFields sender env params)
                                         (base64Decode s))).
Proof.
  intros Hs. unfold createRequest. rewrite Hs. cbn [sharedSecretBuffer].
  eexists. split; [reflexivity|].
  by rewrite assign_singleton, get_insert_eq.
Qed.
End Condition.

(** C7: condition derivation is deterministic.  The condition of a created
    request is a fixed function of the hashed request fields and of the
    shared secret; and when the caller supplies both the id and the
    expiry, two calls with the same parameters yield the same condition
    (or raise the same error) whatever the clock, the random source and
    the sender's defaults are. *)
Theorem createRequest_condition_deterministic `{Platform} :
  (∀ sender env (params : JSObject) s,
     get params "sharedSecret" = VStr s →
     requestCondition (createRequest sender env params)
     = inr (VStr (toConditionUri
                    (hmacJsonForPskCondition (conditionFields sender env params)
                                             (base64Decode s)))))
  ∧ (∀ sender sender' env env' (params : JSObject),
       truthy (get params "id") = true →
       truthy (get params "expiresAt") = true →
       requestCondition (createRequest sender env params)
       = requestCondition (createRequest sender' env' params)).
Proof.
  split.
  - intros sender env params s Hs.
    destruct (createRequest_condition sender env params s Hs) as (r & -> & Hc).
    cbn. by rewrite Hc.
  - intros sender sender' env env' params Hid Hexp.
    unfold createRequest.
    rewrite (conditionFields_supplied sender sender' env env') by done.
    destruct (sharedSecretBuffer (get params "sharedSecret")); [done|].
    cbn. by rewrite !assign_singleton, !get_insert_eq.
Qed.

Lemma createRequest_condition_deterministic_witness :
  requestCondition
    (@createRequest samplePlatform sampleSender sampleEntropy sampleCreateParams)
  = inr (VStr "010101")
  ∧ requestCondition
      (@createRequest samplePlatform sampleSender sampleEntropy sampleCreateParams)
    = requestCondition
        (@createRequest samplePlatform sampleSender otherEntropy sampleCreateParams).
Proof.
  destruct (@createRequest_condition_deterministic samplePlatform) as [Hfun Hdet].
  split.
  - exact (Hfun sampleSender sampleEntropy sampleCreateParams "c2VjcmV0" eq_refl).
  - exact (Hdet sampleSender sampleSender sampleEntropy otherEntropy
             sampleCreateParams eq_refl eq_refl).
Defined.

(** The condition of a request created with data is not the hash of the
    assembled request: the encrypted data is in the request and not in
    the hashed fields. *)
Lemma createRequest_condition_omits_data :
  ∃ request : JSObject,
    @createRequest samplePlatform sampleSender sampleEntropy sampleCreateParams
      = inr request
    ∧ get request "data" = VObj {[ "blob" := VStr "5a" ]}
    ∧ get request "condition" = VStr "010101"
    ∧ get request "condition"
      ≠ VStr (@toConditionUri samplePlatform
                (@hmacJsonForPskCondition samplePlatform
                   (delete "condition" request)
                   (@base64Decode samplePlatform "c2VjcmV0"))).
Proof.
  eexists. split; [reflexivity|].
  split; [by vm_compute|]. split; [by vm_compute|].
  vm_compute. discriminate.
Qed.

(** C4 (amended): for a [createRequest] call with data, the condition is
    the hash of the request as it stands before the data is attached:
    the address with the discriminator appended, the amount and the
    expiry.  The encrypted data is added to the request afterwards and
    does not enter the condition. *)
Theorem createRequest_condition_before_data `{Platform} :
  ∀ sender env (params : JSObject) s,
    truthy (get params "data") = true →
    get params "sharedSecret" = VStr s →
    ∃ request : JSObject,
      createRequest sender env params = inr request
      ∧ get request "condition"
        = VStr (toConditionUri
                  (hmacJsonForPskCondition (conditionFields sender env params)
                                           (base64Decode s)))
      ∧ dom (conditionFields sender env params)
        = ({[ "address"; "amount"; "expires_at" ]} : gset string)
      ∧ get (conditionFields sender env params) "address"
        = VStr (to_string (get params "destinationAccount") +:+ "." +:+
                to_string (or (get params "id") (VStr (e_uuid_v4 env))))
      ∧ get request "data"
        = VObj {[ "blob" :=
                    VStr (base64url (aesEncryptObject (e_cipher env)
                                       (get params "data") (base64Decode s))) ]}
      ∧ (∀ k, k ∈ ["address"; "amount"; "expires_at"] →
              get request k = get (conditionFields sender env params) k)
      ∧ (∀ d, conditionFields sender env (<[ "data" := d ]> params)
              = conditionFields sender env params).
Proof.
  intros sender env params s Hdata Hs.
  destruct (createRequest_condition sender env params s Hs) as (r & Hr & Hc).
  exists r. split; [done|]. split; [done|].
  split; [apply conditionFields_dom|].
  split; [unfold conditionFields; by rewrite !get_insert_eq|].
  assert (r = <[ "condition" := VStr (toConditionUri
                  (hmacJsonForPskCondition (conditionFields sender env params)
                                           (base64Decode s))) ]>
              (<[ "data" := VObj {[ "blob" :=
                    VStr (base64url (aesEncryptObject (e_cipher env)
                                       (get params "data") (base64Decode s))) ]} ]>
                 (conditionFields sender env params))) as ->.
  { unfold createRequest in Hr. rewrite Hs, Hdata in Hr.
    cbn [sharedSecretBuffer] in Hr.
    rewrite assign_singleton, assign_empty in Hr. congruence. }
  split; [by rewrite get_insert_ne, get_insert_eq|].
  split; [|intros d; apply conditionFields_ignores_data].
  intros k Hk. rewrite !get_insert_ne; [done| |]; intros <-;
    repeat (apply elem_of_cons in Hk as [Hk | Hk]; [discriminate|]);
    by apply elem_of_nil in Hk.
Qed.

Lemma createRequest_condition_before_data_witness :
  ∃ request : JSObject,
    @createRequest samplePlatform sampleSender sampleEntropy sampleCreateParams
      = inr request
    ∧ get request "condition" = VStr "010101"
    ∧ get request "data" = VObj {[ "blob" := VStr "5a" ]}.
Proof.
  destruct (@createRequest_condition_before_data samplePlatform sampleSender
              sampleEntropy sampleCreateParams "c2VjcmV0" eq_refl eq_refl)
    as (request & Hr & Hc & _ & _ & Hd & _).
  exists request. split; [exact Hr|]. split; [exact Hc | exact Hd].
Defined.

(** ** [payRequest]: submission failures *)

Section Submission.
Context `{Platform}.
Variable call : Call.

Lemma submitted_duplicate err st :
  err_name err = "DuplicateIdError" →
  submitted call (Some err) st = listenAndPoll call st.
Proof. intros Hn. unfold submitted. by rewrite Hn. Qed.

Lemma submitted_fatal err st :
  err_name err ≠ "DuplicateIdError" →
  err_name err ≠ "MissingFulfillmentError" →
  submitted call (Some err) st = finish (Rejected err) st.
Proof.
  intros Hdup Hmiss. unfold submitted, lookedUp.
  apply String.eqb_neq in Hdup, Hmiss. by rewrite Hdup, Hmiss.
Qed.

Lemma submitted_missing err st :
  err_name err = "MissingFulfillmentError" →
  st_listenerPromise st = None →
  submitted call (Some err) st = finish (Resolved VUndefined) st.
Proof.
  intros Hn Hp. unfold submitted, lookedUp. by rewrite Hn, Hp.
Qed.
End Submission.

(** A duplicate-id failure of the submission is not propagated: the call
    goes on to register its listener and to look the fulfillment up.  A
    failure with any name other than [DuplicateIdError] and
    [MissingFulfillmentError] rejects the call with that very error at
    once: no further client call is made, no listener is registered. *)
Lemma payRequest_submission_failure `{Platform} :
  ∀ sender st ref t t' err,
    let call := (payRequest sender st ref).1 in
    let sent := submitting sender st ref t in
    let final := run call sent [(t', SendDone (Some err))] in
    st_log sent
      = st_log st ++ [CConnect;
                      CSendQuotedPayment (deref (payRequest sender st ref).2 ref)]
    ∧ (err_name err = "DuplicateIdError" →
       st_phase final = Polling ∧ st_result final = Pending
       ∧ st_log final
         = st_log sent ++ [COn "outgoing_fulfill" (fresh (st_listeners st));
                           CGetFulfillment (call_transferId call)])
    ∧ (err_name err ≠ "DuplicateIdError" →
       err_name err ≠ "MissingFulfillmentError" →
       st_result final = Done (Rejected err)
       ∧ st_log final = st_log sent
       ∧ st_listeners final = st_listeners st).
Proof.
  intros sender st ref t t' err call sent final.
  split; [|split].
  - subst sent. unfold submitting. cbn. by rewrite <- app_assoc.
  - intros Hdup. subst final sent. unfold submitting. cbn -[submitted].
    rewrite submitted_duplicate by done. cbn. by rewrite <- !app_assoc.
  - intros Hdup Hmiss. subst final sent. unfold submitting. cbn -[submitted].
    rewrite submitted_fatal by done. by cbn.
Qed.

(** C2: a submission failure named [MissingFulfillmentError] is not a
    duplicate-id error, yet the call does not reject with it: the second
    [catch] of the chain takes it for a missing fulfillment, and the call
    resolves with [undefined] ([promiseFulfillmentListener] was never
    assigned). *)
Theorem payRequest_swallows_submission_error `{Platform} :
  ∀ sender st ref t t' message props,
    let err := mkError "MissingFulfillmentError" message props in
    let call := (payRequest sender st ref).1 in
    let final :=
      run call (submitting sender st ref t) [(t', SendDone (Some err))] in
    err_name err ≠ "DuplicateIdError"
    ∧ st_result final = Done (Resolved VUndefined)
    ∧ st_result final ≠ Done (Rejected err)
    ∧ st_listeners final = st_listeners st.
Proof.
  intros sender st ref t t' message props err call final.
  split; [discriminate|].
  subst final. unfold submitting. cbn -[submitted].
  rewrite submitted_missing by done. by cbn.
Qed.

Example payRequest_swallows_submission_error_sample :
  st_result
    (@run samplePlatform
       (@payRequest samplePlatform sampleSender (idle sampleStore []) 5).1
       (@payRequest samplePlatform sampleSender (idle sampleStore []) 5).2
       [(1, ConnectDone None);
        (2, SendDone (Some (mkError "MissingFulfillmentError"
                                    (VStr "not fulfilled") ∅)))])
  = Done (Resolved VUndefined).
Proof. reflexivity. Qed.

(** ** [payRequest]: the listener and the timer *)

Lemma filter_fresh_listener (ls : list nat) (me : nat) :
  me ∉ ls → filter (λ l, l ≠ me) (ls ++ [me]) = ls.
Proof.
  intros Hme. rewrite filter_app.
  rewrite (filter_cons_False _ me []) by (intros Hne; by apply Hne).
  rewrite filter_nil, app_nil_r.
  induction ls as [|l ls IH]; [done|].
  apply not_elem_of_cons in Hme as [Hne Hme].
  rewrite filter_cons_True by done. by rewrite IH.
Qed.

Lemma filter_absent_listener (ls : list nat) (me : nat) :
  me ∉ ls → filter (λ l, l ≠ me) ls = ls.
Proof.
  induction ls as [|l ls IH]; intros Hme; [done|].
  apply not_elem_of_cons in Hme as [Hne Hme].
  rewrite filter_cons_True by done. by rewrite IH.
Qed.

Section Waiter.
Context `{Platform}.
Variable call : Call.
(** The listeners registered before the call, and the condition of the
    payment. *)
Variable listeners : list nat.
Variable condition : JSValue.

Local Abbreviation me := (fresh listeners).

Lemma me_fresh : me ∉ listeners.
Proof. apply infinite_is_fresh. Qed.

Lemma me_registered : bool_decide (me ∈ listeners ++ [me]) = true.
Proof. apply bool_decide_eq_true. apply elem_of_app. right. by left. Qed.

Lemma me_removed : bool_decide (me ∈ listeners) = false.
Proof. apply bool_decide_eq_false, me_fresh. Qed.

(** Time passing, seen from an armed call: nothing but the clock moves
    before [due]; from [due] on the timer has fired. *)
Lemma advance_armed t due st :
  Armed call listeners condition due st →
  (Z.max (st_clock st) t < due
   ∧ advance t st = set_clock (Z.max (st_clock st) t) st)
  ∨ (due ≤ Z.max (st_clock st) t
     ∧ advance t st
       = settleListener (Rejected expiredError)
           (removeListener me
              (clearTimeout (set_clock (Z.max (st_clock st) t) st)))).
Proof.
  intros (Htimer & Hls & Hl & Hp & Hc).
  unfold advance, timeout. cbn. rewrite Htimer, ?Hl.
  destruct (Z.leb_spec due (Z.max (st_clock st) t)); [right | left]; done.
Qed.

Lemma advance_released t s st :
  Released listeners s st → advance t st = set_clock (Z.max (st_clock st) t) st.
Proof. intros (Htimer & _). unfold advance. cbn. by rewrite Htimer. Qed.

Lemma emit_released transfer fulfillment s st :
  Released listeners s st → emit call transfer fulfillment st = st.
Proof.
  intros (_ & Hls & Hl & _). unfold emit. by rewrite Hl, Hls, me_removed.
Qed.

Lemma emit_armed transfer fulfillment due st :
  Armed call listeners condition due st →
  emit call transfer fulfillment st
  = if matching condition transfer
    then settleListener (Resolved fulfillment)
           (removeListener me (clearTimeout st))
    else st.
Proof.
  intros (_ & Hls & Hl & _ & Hc).
  unfold emit, fulfillmentListener, matching.
  by rewrite Hl, Hls, me_registered, Hc.
Qed.

(** Removing the listener and settling its promise releases an armed
    call; the chain follows only if it is waiting on that promise. *)
Lemma release_armed s due st :
  Armed call listeners condition due st →
  let st' := settleListener s (removeListener me (clearTimeout st)) in
  Released listeners s st'
  ∧ st_clock st' = st_clock st
  ∧ st_log st' = st_log st ++ [CRemoveListener "outgoing_fulfill" me]
  ∧ match st_phase st with
    | Waiting => st_phase st' = Finished ∧ st_result st' = Done s
    | _ => st_phase st' = st_phase st ∧ st_result st' = st_result st
    end.
Proof.
  intros (Htimer & Hls & Hl & Hp & Hc) st'. subst st'.
  unfold settleListener, Released. cbn. rewrite Hp, Hls, Hl.
  rewrite (filter_fresh_listener _ _ me_fresh).
  by destruct (st_phase st).
Qed.

Lemma set_clock_armed t due st : Armed call listeners condition due st → Armed call listeners condition due (set_clock t st).
Proof. intros (? & ? & ? & ? & ?). by repeat split. Qed.

Lemma set_clock_released t s st :
  Released listeners s st → Released listeners s (set_clock t st).
Proof. intros (? & ? & ? & ?). by repeat split. Qed.
(** *** Before the listener exists *)

Lemma quiet_advance ph t st :
  Quiet call listeners condition ph st → advance t st = set_clock (Z.max (st_clock st) t) st.
Proof. intros (Htimer & _). unfold advance. cbn. by rewrite Htimer. Qed.

Lemma quiet_set_clock ph t st : Quiet call listeners condition ph st → Quiet call listeners condition ph (set_clock t st).
Proof. intros (? & ? & ? & ? & ? & ?). by repeat split. Qed.

Lemma quiet_event ph e st :
  isFulfill e → Quiet call listeners condition ph st → Quiet call listeners condition ph (step call (advance e.1 st) e.2).
Proof.
  destruct e as [t [| | |transfer fulfillment]]; try done. intros _ Hq.
  rewrite (quiet_advance _ _ _ Hq). cbn [fst snd step].
  apply (quiet_set_clock _ (Z.max (st_clock st) t)) in Hq.
  unfold emit. by rewrite (proj1 (proj2 Hq)).
Qed.

Lemma quiet_run ph timeline st :
  Forall isFulfill timeline → Quiet call listeners condition ph st → Quiet call listeners condition ph (run call st timeline).
Proof.
  intros Hall. revert st.
  induction Hall as [|e tl He _ IH]; intros st Hq; [done|].
  apply IH. by apply quiet_event.
Qed.

Lemma quiet_connect t st :
  Quiet call listeners condition Connecting st →
  Quiet call listeners condition Submitting (step call (advance t st) (ConnectDone None)).
Proof.
  intros Hq. rewrite (quiet_advance _ _ _ Hq).
  destruct Hq as (? & ? & ? & Hph & ? & ?).
  unfold step. cbn. rewrite Hph. by repeat split.
Qed.

Lemma listenAndPoll_armed ph st :
  Quiet call listeners condition ph st →
  let st' := listenAndPoll call st in
  Armed call listeners condition (dueTime call st') st' ∧ st_phase st' = Polling ∧ st_result st' = Pending
  ∧ st_clock st' = st_clock st
  ∧ st_log st' = st_log st ++ [COn "outgoing_fulfill" me;
                               CGetFulfillment (call_transferId call)].
Proof.
  intros (? & ? & Hls & ? & ? & ?) st'. subst st'.
  unfold Armed, dueTime, listenAndPoll. cbn. rewrite Hls.
  repeat split; try done. by rewrite <- app_assoc.
Qed.

Lemma quiet_send t r st :
  Quiet call listeners condition Submitting st → accepted r →
  let st' := step call (advance t st) (SendDone r) in
  Armed call listeners condition (dueTime call st') st' ∧ st_phase st' = Polling ∧ st_result st' = Pending
  ∧ st_clock st' = Z.max (st_clock st) t
  ∧ ∃ log, st_log st' = log ++ [COn "outgoing_fulfill" me;
                                CGetFulfillment (call_transferId call)].
Proof.
  intros Hq Hr st'. subst st'. rewrite (quiet_advance _ _ _ Hq).
  apply (quiet_set_clock _ (Z.max (st_clock st) t)) in Hq.
  assert (Hstep : step call (set_clock (Z.max (st_clock st) t) st) (SendDone r)
                  = listenAndPoll call (set_clock (Z.max (st_clock st) t) st)).
  { unfold step. rewrite (proj1 (proj2 (proj2 (proj2 Hq)))).
    destruct r as [err|]; [|done]. by apply submitted_duplicate. }
  rewrite Hstep.
  destruct (listenAndPoll_armed _ _ Hq) as (Ha & Hph & Hres & Hclk & Hlog).
  split; [done|]. split; [done|]. split; [done|]. split; [by rewrite Hclk|].
  eauto.
Qed.

Lemma run_app st (tl tl' : list (Z * Stimulus)) :
  run call st (tl ++ tl') = run call (run call st tl) tl'.
Proof. apply fold_left_app. Qed.

(** From the start of a call to the registration of its listener. *)
Lemma quiet_armed st evs0 t1 evs1 t2 r :
  Quiet call listeners condition Connecting st →
  Forall isFulfill evs0 → Forall isFulfill evs1 → accepted r →
  let st' :=
    run call st (evs0 ++ [(t1, ConnectDone None)] ++ evs1 ++ [(t2, SendDone r)]) in
  Armed call listeners condition (dueTime call st') st' ∧ st_phase st' = Polling ∧ st_result st' = Pending
  ∧ ∃ log, st_log st' = log ++ [COn "outgoing_fulfill" me;
                                CGetFulfillment (call_transferId call)].
Proof.
  intros Hq H0 H1 Hr st'. subst st'.
  rewrite !run_app. cbn [run fold_left fst snd].
  apply (quiet_run _ _ _ H0) in Hq.
  apply (quiet_connect t1) in Hq.
  apply (quiet_run _ _ _ H1) in Hq.
  destruct (quiet_send t2 r _ Hq Hr) as (Ha & Hph & Hres & _ & Hlog).
  exact (conj Ha (conj Hph (conj Hres Hlog))).
Qed.
(** *** The timeout path *)

Lemma expiring_advance due ph t st :
  ph = Polling ∨ ph = Waiting →
  Expiring call listeners condition due ph st →
  Expiring call listeners condition due ph (advance t st)
  ∧ (due ≤ Z.max (st_clock st) t → Released listeners (Rejected expiredError) (advance t st)).
Proof.
  intros Hph [(Ha & Hp & Hr) | (Hrel & Hp)].
  - destruct (advance_armed t _ _ Ha) as [[Hlt ->] | [Hge ->]].
    + split; [|lia]. left. split; [by apply set_clock_armed | done].
    + apply (set_clock_armed (Z.max (st_clock st) t)) in Ha.
      destruct (release_armed (Rejected expiredError) _ _ Ha)
        as (Hrel & _ & _ & Hfollow).
      split; [|done]. right. split; [done|].
      cbn [set_clock st_phase st_result] in Hfollow. rewrite Hp, Hr in Hfollow.
      by destruct Hph as [-> | ->].
  - rewrite (advance_released _ _ _ Hrel).
    split; [|intros _; by apply set_clock_released].
    right. split; [by apply set_clock_released | done].
Qed.

Lemma expiring_event due ph e st :
  ph = Polling ∨ ph = Waiting →
  notBefore condition due e → Expiring call listeners condition due ph st →
  Expiring call listeners condition due ph (step call (advance e.1 st) e.2).
Proof.
  destruct e as [t [| | |transfer fulfillment]]; try done.
  unfold notBefore. cbn [fst snd step]. intros Hph Hlate Hexp.
  destruct (expiring_advance due ph t st Hph Hexp) as [Hexp' Hfired].
  destruct Hexp' as [(Ha & Hp & Hr) | (Hrel & Hp)].
  - rewrite (emit_armed _ _ _ _ Ha).
    destruct (matching condition transfer) eqn:Hm; [|left; done].
    specialize (Hfired ltac:(specialize (Hlate eq_refl); lia)).
    destruct Ha as (Htimer & _), Hfired as (Hnone & _). congruence.
  - rewrite (emit_released _ _ _ _ Hrel). by right.
Qed.

Lemma expiring_run due ph timeline st :
  ph = Polling ∨ ph = Waiting →
  Forall (notBefore condition due) timeline →
  Expiring call listeners condition due ph st → Expiring call listeners condition due ph (run call st timeline).
Proof.
  intros Hph Hall. revert st.
  induction Hall as [|e tl He _ IH]; intros st Hexp; [done|].
  apply IH. by apply expiring_event.
Qed.

Lemma expiring_lookup due t r st :
  notFulfilled r →
  Expiring call listeners condition due Polling st →
  Expiring call listeners condition due Waiting (step call (advance t st) (LookupDone r)).
Proof.
  intros Hr Hexp.
  destruct (expiring_advance due Polling t st (or_introl eq_refl) Hexp)
    as [Hexp' _].
  set (st' := advance t st) in *. clearbody st'.
  assert (Hlook : ∃ v, truthy v = false
                       ∧ step call st' (LookupDone r) = lookedUp (inr v) st').
  { destruct Hexp' as [(_ & Hp & _) | (_ & Hp & _)];
      unfold step; rewrite Hp;
      (destruct r as [err | v]; cbn in Hr;
       [exists VNull; split; [done|]; unfold lookedUp; by rewrite Hr
       | by exists v]). }
  destruct Hlook as (v & Hv & ->). unfold lookedUp. rewrite Hv.
  destruct Hexp' as [(Ha & Hp & Hres) | (Hrel & Hp & Hres)].
  - pose proof Ha as (? & ? & ? & Hpend & ?). rewrite Hpend.
    left. split; [|done]. destruct Ha as (? & ? & ? & ? & ?). by repeat split.
  - pose proof Hrel as (? & ? & ? & Hdone). rewrite Hdone.
    right. split; [|done]. by repeat split.
Qed.

(** Once the timer is due, a call on the timeout path has rejected and
    its listener is no longer registered. *)
Lemma expiring_end due t st :
  Expiring call listeners condition due Waiting st → due ≤ t →
  st_result (advance t st) = Done (Rejected expiredError)
  ∧ st_listeners (advance t st) = listeners
  ∧ st_timer (advance t st) = None.
Proof.
  intros Hexp Hdue.
  destruct (expiring_advance due Waiting t st (or_intror eq_refl) Hexp)
    as [Hexp' Hfired].
  specialize (Hfired ltac:(lia)).
  destruct Hfired as (Htimer & Hls & _).
  destruct Hexp' as [((Hsome & _) & _) | (_ & _ & Hres)]; [congruence | done].
Qed.

(** *** The already-fulfilled path *)

Lemma settling_advance due ph res t st :
  ph ≠ Waiting →
  Settling call listeners condition due ph res st →
  Settling call listeners condition due ph res (advance t st)
  ∧ (due ≤ Z.max (st_clock st) t → st_listeners (advance t st) = listeners).
Proof.
  intros Hph ([Ha | [s Hrel]] & Hp & Hr).
  - destruct (advance_armed t _ _ Ha) as [[Hlt ->] | [Hge ->]].
    + split; [|lia]. split; [left; by apply set_clock_armed | done].
    + apply (set_clock_armed (Z.max (st_clock st) t)) in Ha.
      destruct (release_armed (Rejected expiredError) _ _ Ha)
        as (Hrel & _ & _ & Hfollow).
      split; [|intros _; apply Hrel]. split; [eauto|].
      cbn [set_clock st_phase st_result] in Hfollow. rewrite Hp, Hr in Hfollow.
      by destruct ph.
  - rewrite (advance_released _ _ _ Hrel).
    split; [|intros _; apply Hrel].
    split; [right; exists s; by apply set_clock_released | done].
Qed.

Lemma settling_event due ph res e st :
  ph ≠ Waiting → isFulfill e →
  Settling call listeners condition due ph res st → Settling call listeners condition due ph res (step call (advance e.1 st) e.2).
Proof.
  destruct e as [t [| | |transfer fulfillment]]; try done.
  cbn [fst snd step]. intros Hph _ Hs.
  destruct (settling_advance due ph res t st Hph Hs)
    as [([Ha | [s Hrel]] & Hp & Hr) _].
  - rewrite (emit_armed _ _ _ _ Ha).
    destruct (matching condition transfer); [|split; [by left | done]].
    destruct (release_armed (Resolved fulfillment) _ _ Ha)
      as (Hrel & _ & _ & Hfollow).
    split; [eauto|]. rewrite Hp, Hr in Hfollow. by destruct ph.
  - rewrite (emit_released _ _ _ _ Hrel). split; [eauto | done].
Qed.

Lemma settling_run due ph res timeline st :
  ph ≠ Waiting → Forall isFulfill timeline →
  Settling call listeners condition due ph res st → Settling call listeners condition due ph res (run call st timeline).
Proof.
  intros Hph Hall. revert st.
  induction Hall as [|e tl He _ IH]; intros st Hs; [done|].
  apply IH. by apply settling_event.
Qed.

Lemma settling_lookup due t fulfillment st :
  truthy fulfillment = true →
  Settling call listeners condition due Polling Pending st →
  Settling call listeners condition due Finished (Done (Resolved fulfillment))
           (step call (advance t st) (LookupDone (inr fulfillment))).
Proof.
  intros Hf Hs.
  destruct (settling_advance due Polling Pending t st ltac:(done) Hs)
    as [(Hl & Hp & Hr) _].
  unfold step. rewrite Hp. unfold lookedUp. rewrite Hf.
  split; [|done].
  destruct Hl as [(? & ? & ? & ? & ?) | [s (? & ? & ? & ?)]];
    [left | right; exists s]; by repeat split.
Qed.
End Waiter.

(** ** [payRequest]: outcomes *)

Section Outcomes.
Context `{Platform}.
Variable sender : Sender.
Variable st : State.
Variable ref : nat.

Local Abbreviation call := (payRequest sender st ref).1.
Local Abbreviation started := (payRequest sender st ref).2.
Local Abbreviation condition := (get (deref started ref) "executionCondition").

Lemma payRequest_quiet : Quiet call (st_listeners st) condition Connecting started.
Proof. by repeat split. Qed.

Lemma started_property (obj : JSObject) k :
  st_store st !! ref = Some obj → k ≠ "uuid" →
  get (deref started ref) k = get obj k.
Proof.
  intros Hobj Hk. unfold deref. cbn. rewrite lookup_insert_eq. cbn.
  unfold deref. rewrite Hobj. cbn.
  by rewrite assign_singleton, get_insert_ne.
Qed.

Lemma listening_armed evs0 t1 evs1 t2 r :
  Forall isFulfill evs0 → Forall isFulfill evs1 → accepted r →
  let armed := listening sender st ref evs0 t1 evs1 t2 r in
  Armed call (st_listeners st) condition (dueTime call armed) armed
  ∧ st_phase armed = Polling ∧ st_result armed = Pending
  ∧ ∃ log, st_log armed
           = log ++ [COn "outgoing_fulfill" (fresh (st_listeners st));
                     CGetFulfillment (call_transferId call)].
Proof.
  intros H0 H1 Hr.
  exact (quiet_armed call (st_listeners st) condition started evs0 t1 evs1 t2 r
           payRequest_quiet H0 H1 Hr).
Qed.

(** With an expiry between 1 ms and 2^31 - 1 ms ahead, the timer is set
    for the expiry. *)
Lemma dueTime_expiry (obj : JSObject) armed expiry :
  st_store st !! ref = Some obj →
  st_store armed = st_store started →
  moment (st_clock armed) (get obj "expiresAt") = Some expiry →
  st_clock armed < expiry ≤ st_clock armed + 2147483647 →
  dueTime call armed = expiry.
Proof.
  intros Hobj Hstore Hm Hrange. unfold dueTime, payment.
  replace (deref armed (paymentParams call)) with (deref started ref)
    by (unfold deref; by rewrite Hstore).
  rewrite (started_property obj) by done. rewrite Hm. cbn.
  rewrite (proj2 (Z.leb_le 1 (expiry - st_clock armed))) by lia.
  rewrite (proj2 (Z.leb_le (expiry - st_clock armed) 2147483647)) by lia.
  cbn. lia.
Qed.

(** The timeout path, in terms of the time [due] for which the timer is
    set. *)
Lemma payRequest_times_out evs0 t1 evs1 t2 r2 evs2 t3 r3 evs3 tend :
  let armed := listening sender st ref evs0 t1 evs1 t2 r2 in
  let final :=
    advance tend (run call armed (evs2 ++ [(t3, LookupDone r3)] ++ evs3)) in
  Forall isFulfill evs0 → Forall isFulfill evs1 →
  accepted r2 → notFulfilled r3 →
  Forall (notBefore condition (dueTime call armed)) (evs2 ++ evs3) →
  dueTime call armed ≤ tend →
  st_result final = Done (Rejected expiredError)
  ∧ st_listeners final = st_listeners st
  ∧ st_timer final = None.
Proof.
  intros armed final H0 H1 Hr2 Hr3 Hlate Hend.
  destruct (listening_armed evs0 t1 evs1 t2 r2 H0 H1 Hr2) as (Ha & Hp & Hres & _).
  fold armed in Ha, Hp, Hres.
  apply Forall_app in Hlate as [Hlate2 Hlate3].
  assert (Hexp : Expiring call (st_listeners st) condition (dueTime call armed)
                          Polling armed) by (left; done).
  apply (expiring_run _ _ _ _ _ evs2) in Hexp; [|by left | done].
  apply (expiring_lookup _ _ _ _ t3 r3) in Hexp; [|done].
  apply (expiring_run _ _ _ _ _ evs3) in Hexp; [|by right | done].
  subst final. rewrite !run_app. cbn [run fold_left fst snd].
  by apply (expiring_end _ _ _ _ _ _ Hexp).
Qed.

(** The already-fulfilled path. *)
Lemma payRequest_finds_fulfillment evs0 t1 evs1 t2 r2 evs2 t3 fulfillment :
  let armed := listening sender st ref evs0 t1 evs1 t2 r2 in
  let polled := run call armed (evs2 ++ [(t3, LookupDone (inr fulfillment))]) in
  Forall isFulfill evs0 → Forall isFulfill evs1 → Forall isFulfill evs2 →
  accepted r2 → truthy fulfillment = true →
  Settling call (st_listeners st) condition (dueTime call armed) Finished
           (Done (Resolved fulfillment)) polled.
Proof.
  intros armed polled H0 H1 H2 Hr2 Hf.
  destruct (listening_armed evs0 t1 evs1 t2 r2 H0 H1 Hr2) as (Ha & Hp & Hres & _).
  fold armed in Ha, Hp, Hres.
  assert (Hs : Settling call (st_listeners st) condition (dueTime call armed)
                        Polling Pending armed) by (split; [by left | done]).
  apply (settling_run _ _ _ _ _ _ evs2) in Hs; [|done | done].
  subst polled. rewrite run_app. cbn [run fold_left fst snd].
  by apply settling_lookup.
Qed.
End Outcomes.

(** The rejection on the timeout path is a plain [Error]: its name is not
    [ExpiredTransferError]. *)
Lemma payRequest_expiry_error_name :
  st_result sampleTimedOut
    = Done (Rejected (Error "Transfer expired, money returned"))
  ∧ err_name (Error "Transfer expired, money returned") ≠ "ExpiredTransferError".
Proof. split; [by vm_compute | discriminate]. Qed.

(** C6 (amended): when the transfer was submitted (or was a duplicate),
    the lookup finds no fulfillment, and no fulfillment event for the
    payment's condition arrives before [expiresAt], which lies between
    1 ms and 2^31 - 1 ms after the submission, then once [expiresAt] has
    passed [payRequest] has rejected with the plain [Error] 'Transfer
    expired, money returned', and the listener registered by the call is
    no longer on the client. *)
Theorem payRequest_expires `{Platform} :
  ∀ sender st ref (obj : JSObject) evs0 t1 evs1 t2 r2 evs2 t3 r3 evs3 tend expiry,
    let call := (payRequest sender st ref).1 in
    let armed := listening sender st ref evs0 t1 evs1 t2 r2 in
    let final :=
      advance tend (run call armed (evs2 ++ [(t3, LookupDone r3)] ++ evs3)) in
    st_store st !! ref = Some obj →
    Forall isFulfill evs0 → Forall isFulfill evs1 →
    accepted r2 → notFulfilled r3 →
    moment (st_clock armed) (get obj "expiresAt") = Some expiry →
    (st_clock armed < expiry ≤ st_clock armed + 2147483647) →
    Forall (notBefore (get obj "executionCondition") expiry) (evs2 ++ evs3) →
    expiry ≤ tend →
    st_result final = Done (Rejected (Error "Transfer expired, money returned"))
    ∧ st_listeners final = st_listeners st
    ∧ (fresh (st_listeners st) ∉ st_listeners final)
    ∧ st_timer final = None.
Proof.
  intros sender st ref obj evs0 t1 evs1 t2 r2 evs2 t3 r3 evs3 tend expiry
         call armed final Hobj H0 H1 Hr2 Hr3 Hm Hrange Hlate Hend.
  assert (Hdue : dueTime call armed = expiry).
  { assert (Hstore : st_store armed = st_store (payRequest sender st ref).2)
      by (unfold armed, listening; apply run_store).
    exact (dueTime_expiry sender st ref obj armed expiry Hobj Hstore Hm Hrange). }
  assert (Hcond : get (deref (payRequest sender st ref).2 ref) "executionCondition"
                  = get obj "executionCondition")
    by (apply started_property; [exact Hobj | discriminate]).
  rewrite <- Hdue, <- Hcond in Hlate. rewrite <- Hdue in Hend.
  destruct (payRequest_times_out sender st ref evs0 t1 evs1 t2 r2 evs2 t3 r3
              evs3 tend H0 H1 Hr2 Hr3 Hlate Hend) as (Hres & Hls & Htimer).
  split; [exact Hres|]. split; [exact Hls|]. split; [|exact Htimer].
  fold call armed final in Hls. rewrite Hls. apply infinite_is_fresh.
Qed.

Lemma payRequest_expires_witness :
  st_result sampleTimedOut
    = Done (Rejected (Error "Transfer expired, money returned"))
  ∧ st_listeners sampleTimedOut = [7%nat]
  ∧ (fresh [7%nat] ∉ st_listeners sampleTimedOut)
  ∧ st_timer sampleTimedOut = None.
Proof.
  assert (Hlate : Forall (notBefore (get sampleParams "executionCondition") 9000)
                         ([(3, fulfillEvent "cc:1" "other")]
                          ++ [(9500, fulfillEvent "cc:0" "late")])).
  { repeat constructor; unfold notBefore; cbn; intros; (discriminate || lia). }
  pose proof (@payRequest_expires samplePlatform sampleSender
           (idle sampleStore [7%nat]) 5%nat sampleParams [] 1 [] 2 None
           [(3, fulfillEvent "cc:1" "other")] 4
           (inl (mkError "MissingFulfillmentError" VNull ∅))
           [(9500, fulfillEvent "cc:0" "late")] 10000 9000) as W.
  cbv zeta in W.
  specialize (W eq_refl).
  specialize (W ltac:(constructor) ltac:(constructor) I eq_refl).
  specialize (W ltac:(vm_compute; reflexivity)).
  specialize (W ltac:(vm_compute; split; [reflexivity | discriminate])).
  specialize (W Hlate ltac:(lia)).
  exact W.
Defined.

(** On the already-fulfilled path the call has registered a listener, and
    the listener is still registered when the call resolves. *)
Lemma payRequest_registers_listener_anyway :
  st_result sampleAlreadyFulfilled = Done (Resolved (VStr "proof"))
  ∧ COn "outgoing_fulfill" 8 ∈ st_log sampleAlreadyFulfilled
  ∧ st_listeners sampleAlreadyFulfilled = [7%nat; 8%nat].
Proof.
  split; [by vm_compute|]. split; [|by vm_compute].
  vm_compute. in_list.
Qed.

(** C5 (amended): when the lookup returns a proof, [payRequest] resolves
    with that proof as soon as the lookup answers, and stays resolved
    with it.  The call has registered its 'outgoing_fulfill' listener
    before issuing the lookup; the listener is removed by a matching
    event or by the expiry timer, so it is gone once the timer is due. *)
Theorem payRequest_already_fulfilled `{Platform} :
  ∀ sender st ref evs0 t1 evs1 t2 r2 evs2 t3 fulfillment,
    let call := (payRequest sender st ref).1 in
    let armed := listening sender st ref evs0 t1 evs1 t2 r2 in
    let polled := run call armed (evs2 ++ [(t3, LookupDone (inr fulfillment))]) in
    Forall isFulfill evs0 → Forall isFulfill evs1 → Forall isFulfill evs2 →
    accepted r2 → truthy fulfillment = true →
    st_result polled = Done (Resolved fulfillment)
    ∧ st_listeners armed = st_listeners st ++ [fresh (st_listeners st)]
    ∧ (∃ log, st_log armed
              = log ++ [COn "outgoing_fulfill" (fresh (st_listeners st));
                        CGetFulfillment (call_transferId call)])
    ∧ (∀ evs3 tend,
         Forall isFulfill evs3 →
         let final := advance tend (run call polled evs3) in
         st_result final = Done (Resolved fulfillment)
         ∧ (dueTime call armed ≤ tend → st_listeners final = st_listeners st)).
Proof.
  intros sender st ref evs0 t1 evs1 t2 r2 evs2 t3 fulfillment
         call armed polled H0 H1 H2 Hr2 Hf.
  destruct (listening_armed sender st ref evs0 t1 evs1 t2 r2 H0 H1 Hr2)
    as (Ha & _ & _ & Hlog).
  pose proof (payRequest_finds_fulfillment sender st ref evs0 t1 evs1 t2 r2
                evs2 t3 fulfillment H0 H1 H2 Hr2 Hf) as Hs.
  cbv zeta in Hs. subst polled armed call.
  split; [exact (proj2 (proj2 Hs))|].
  split; [exact (proj1 (proj2 Ha))|]. split; [exact Hlog|].
  intros evs3 tend H3 final. subst final.
  apply (settling_run _ _ _ _ _ _ evs3) in Hs; [|discriminate | exact H3].
  destruct (settling_advance _ _ _ _ Finished _ tend _ ltac:(discriminate) Hs)
    as [(_ & _ & Hres) Hgone].
  split; [exact Hres|]. intros Hdue. apply Hgone. lia.
Qed.

Lemma payRequest_already_fulfilled_witness :
  st_result sampleAlreadyFulfilled = Done (Resolved (VStr "proof"))
  ∧ st_listeners
      (@listening samplePlatform sampleSender (idle sampleStore [7%nat]) 5
         [] 1 [] 2 None)
    = [7%nat] ++ [fresh [7%nat]].
Proof.
  pose proof (@payRequest_already_fulfilled samplePlatform sampleSender
                (idle sampleStore [7%nat]) 5%nat [] 1 [] 2 None [] 4 (VStr "proof")) as W.
  cbv zeta in W.
  specialize (W ltac:(constructor) ltac:(constructor) ltac:(constructor) I eq_refl).
  destruct W as (Hres & Hls & _).
  split; [exact Hres | exact Hls].
Defined.

(** * Further properties *)

#[local] Set Warnings "-clear-no-such-hyp".

(** ** Quoting: what reaches the client *)

Ltac run_chain :=
  unfold settle, mbind, chain_bind, client_connect, client_quote, clock,
         mret, chain_ret, throw.

Section QuotingCalls.
Context `{Platform}.
Variable sender : Sender.
Variable w : World.

Lemma validAmountQuery_true a b :
  validAmountQuery a b = true →
  negb (truthy a) || negb (is_string a) = false ∧ negb (truthy b) = false.
Proof.
  unfold validAmountQuery. destruct (truthy a), (is_string a), (truthy b); done.
Qed.

Lemma validRequest_true (request : JSObject) :
  validRequest request = true →
  truthy (get request "address") = true ∧ truthy (get request "amount") = true
  ∧ truthy (get request "condition") = true.
Proof.
  unfold validRequest.
  destruct (truthy (get request "address")), (truthy (get request "amount")),
    (truthy (get request "condition")); done.
Qed.

(** The chain of [quoteSourceAmount] on valid inputs. *)
Lemma quoteSourceAmount_valid a b :
  validAmountQuery a b = true →
  settle (quoteSourceAmount a b) w
  = match connect_response w with
    | Some e => (Rejected e, [CConnect])
    | None =>
        (match quote_response w (sourceQuery a b) with
         | inl e => Rejected e
         | inr quote =>
             if truthy quote
             then Resolved (VStr (to_string (prop quote "destinationAmount")))
             else Rejected emptyQuoteError
         end, [CConnect; CQuote (sourceQuery a b)])
    end.
Proof.
  intros [Ha Hb]%validAmountQuery_true.
  unfold quoteSourceAmount. rewrite Ha, Hb. run_chain. fold (sourceQuery a b).
  destruct (connect_response w); [done|].
  destruct (quote_response w (sourceQuery a b)) as [e | quote]; [done|].
  by destruct (truthy quote).
Qed.

Lemma quoteDestinationAmount_valid a b :
  validAmountQuery a b = true →
  settle (quoteDestinationAmount a b) w
  = match connect_response w with
    | Some e => (Rejected e, [CConnect])
    | None =>
        (match quote_response w (destinationQuery a b) with
         | inl e => Rejected e
         | inr quote =>
             if truthy quote
             then Resolved (VStr (to_string (prop quote "sourceAmount")))
             else Rejected emptyQuoteError
         end, [CConnect; CQuote (destinationQuery a b)])
    end.
Proof.
  intros [Ha Hb]%validAmountQuery_true.
  unfold quoteDestinationAmount. rewrite Ha, Hb. run_chain.
  fold (destinationQuery a b).
  destruct (connect_response w); [done|].
  destruct (quote_response w (destinationQuery a b)) as [e | quote]; [done|].
  by destruct (truthy quote).
Qed.

Lemma quoteRequest_valid (request : JSObject) :
  validRequest request = true →
  ∃ params : JSObject,
    settle (quoteRequest sender request) w
    = match connect_response w with
      | Some e => (Rejected e, [CConnect])
      | None =>
          (match quote_response w (requestQuery request) with
           | inl e => Rejected e
           | inr quote =>
               if truthy quote then Resolved (VObj params)
               else Rejected emptyQuoteError
           end, [CConnect; CQuote (requestQuery request)])
      end.
Proof.
  intros (Ha & Hb & Hc)%validRequest_true.
  unfold quoteRequest. rewrite Ha, Hb, Hc. run_chain. cbn [negb].
  fold (requestQuery request).
  destruct (connect_response w); [by exists ∅|].
  destruct (quote_response w (requestQuery request)) as [e | quote];
    [by exists ∅|].
  destruct (truthy quote); [|by exists ∅]. cbn [negb]. by eexists.
Qed.

Lemma quoteSourceAmount_invalid a b :
  validAmountQuery a b = false →
  ∃ msg, settle (quoteSourceAmount a b) w = (Rejected (Error msg), []).
Proof.
  unfold validAmountQuery, quoteSourceAmount. run_chain.
  destruct (truthy a), (is_string a), (truthy b); cbn; intros; eauto; done.
Qed.

Lemma quoteDestinationAmount_invalid a b :
  validAmountQuery a b = false →
  ∃ msg, settle (quoteDestinationAmount a b) w = (Rejected (Error msg), []).
Proof.
  unfold validAmountQuery, quoteDestinationAmount. run_chain.
  destruct (truthy a), (is_string a), (truthy b); cbn; intros; eauto; done.
Qed.

Lemma quoteRequest_invalid (request : JSObject) :
  validRequest request = false →
  ∃ msg, settle (quoteRequest sender request) w = (Rejected (Error msg), []).
Proof.
  unfold validRequest, quoteRequest. run_chain.
  destruct (truthy (get request "address")), (truthy (get request "amount")),
    (truthy (get request "condition")); cbn; intros; eauto; done.
Qed.
End QuotingCalls.

Section QuotingOutcomes.
Context `{Platform}.
Variable sender : Sender.
Variable w : World.

Lemma quoteRequest_resolves (request : JSObject) quote :
  validRequest request = true →
  answers w (requestQuery request) quote → truthy quote = true →
  settle (quoteRequest sender request) w
  = (Resolved (VObj (quotedParams sender (now w) request quote)),
     [CConnect; CQuote (requestQuery request)]).
Proof.
  intros (Ha & Hb & Hc)%validRequest_true [Hconn Hquote] Hq.
  unfold quoteRequest. rewrite Ha, Hb, Hc. run_chain. cbn [negb].
  fold (requestQuery request). by rewrite Hconn, Hquote, Hq.
Qed.
End QuotingOutcomes.

(** X1: a quoting call reaches the ledger client exactly when its inputs
    pass the checks: the address is a non-empty string and the amount is
    truthy (for [quoteRequest]: address, amount and condition are
    truthy).  In particular a numeric address and the amount [0] are
    refused. *)
Theorem quote_reaches_client_iff `{Platform} :
  ∀ sender w,
    (∀ a b, (settle (quoteSourceAmount a b) w).2 ≠ []
            ↔ validAmountQuery a b = true)
    ∧ (∀ a b, (settle (quoteDestinationAmount a b) w).2 ≠ []
              ↔ validAmountQuery a b = true)
    ∧ (∀ request : JSObject,
         (settle (quoteRequest sender request) w).2 ≠ []
         ↔ validRequest request = true)
    ∧ (∀ n b, validAmountQuery (VNum n) b = false)
    ∧ (∀ a, validAmountQuery a (VNum 0) = false).
Proof.
  intros sender w. split; [|split; [|split; [|split]]].
  - intros a b. destruct (validAmountQuery a b) eqn:Hv.
    + rewrite (quoteSourceAmount_valid w a b Hv).
      by destruct (connect_response w).
    + destruct (quoteSourceAmount_invalid w a b Hv) as [msg ->]. by cbn.
  - intros a b. destruct (validAmountQuery a b) eqn:Hv.
    + rewrite (quoteDestinationAmount_valid w a b Hv).
      by destruct (connect_response w).
    + destruct (quoteDestinationAmount_invalid w a b Hv) as [msg ->]. by cbn.
  - intros request. destruct (validRequest request) eqn:Hv.
    + destruct (quoteRequest_valid sender w request Hv) as [params ->].
      by destruct (connect_response w).
    + destruct (quoteRequest_invalid sender w request Hv) as [msg ->]. by cbn.
  - intros n b. unfold validAmountQuery. cbn. by rewrite andb_false_r.
  - intros a. unfold validAmountQuery. cbn. by rewrite andb_false_r.
Qed.

(** X2: whatever the inputs and the client's answers, a quoting call
    makes at most two client calls, [connect] first and then one [quote]
    with the query built from its arguments: it never quotes without
    connecting and never quotes twice. *)
Theorem quote_client_calls `{Platform} :
  ∀ sender w,
    (∀ a b, (settle (quoteSourceAmount a b) w).2
            `prefix_of` [CConnect; CQuote (sourceQuery a b)])
    ∧ (∀ a b, (settle (quoteDestinationAmount a b) w).2
              `prefix_of` [CConnect; CQuote (destinationQuery a b)])
    ∧ (∀ request : JSObject,
         (settle (quoteRequest sender request) w).2
         `prefix_of` [CConnect; CQuote (requestQuery request)]).
Proof.
  intros sender w. split; [|split].
  - intros a b. destruct (validAmountQuery a b) eqn:Hv.
    + rewrite (quoteSourceAmount_valid w a b Hv).
      destruct (connect_response w); cbn; [by eexists [_] | done].
    + destruct (quoteSourceAmount_invalid w a b Hv) as [msg ->].
      apply prefix_nil.
  - intros a b. destruct (validAmountQuery a b) eqn:Hv.
    + rewrite (quoteDestinationAmount_valid w a b Hv).
      destruct (connect_response w); cbn; [by eexists [_] | done].
    + destruct (quoteDestinationAmount_invalid w a b Hv) as [msg ->].
      apply prefix_nil.
  - intros request. destruct (validRequest request) eqn:Hv.
    + destruct (quoteRequest_valid sender w request Hv) as [params ->].
      destruct (connect_response w); cbn; [by eexists [_] | done].
    + destruct (quoteRequest_invalid sender w request Hv) as [msg ->].
      apply prefix_nil.
Qed.

(** X3: on valid inputs, when the client connects and returns a non-empty
    quote, [quoteSourceAmount] resolves with the quote's
    [destinationAmount] as a string and [quoteDestinationAmount] with its
    [sourceAmount] as a string; the amount sent in the query is the
    caller's amount converted to a string.  The string form of a string
    is the string itself, that of an integer up to
    [Number.MAX_SAFE_INTEGER] in size its decimal digits, and that of a
    larger integer whatever the engine prints for it. *)
Theorem quote_amount_resolves `{Platform} :
  ∀ w a b quote,
    validAmountQuery a b = true → truthy quote = true →
    (answers w (sourceQuery a b) quote →
     settle (quoteSourceAmount a b) w
     = (Resolved (VStr (to_string (prop quote "destinationAmount"))),
        [CConnect; CQuote (sourceQuery a b)]))
    ∧ (answers w (destinationQuery a b) quote →
       settle (quoteDestinationAmount a b) w
       = (Resolved (VStr (to_string (prop quote "sourceAmount"))),
          [CConnect; CQuote (destinationQuery a b)]))
    ∧ get (sourceQuery a b) "sourceAmount" = VStr (to_string b)
    ∧ get (destinationQuery a b) "destinationAmount" = VStr (to_string b)
    ∧ (∀ s, to_string (VStr s) = s)
    ∧ (∀ n, - MAX_SAFE_INTEGER ≤ n ≤ MAX_SAFE_INTEGER →
            to_string (VNum n) = pretty n)
    ∧ (∀ n, ¬ (- MAX_SAFE_INTEGER ≤ n ≤ MAX_SAFE_INTEGER) →
            to_string (VNum n) = numberToString n).
Proof.
  intros w a b quote Hv Hq. split; [|split; [|split; [|split; [|split; [|split]]]]].
  - intros [Hconn Hquote].
    by rewrite (quoteSourceAmount_valid w a b Hv), Hconn, Hquote, Hq.
  - intros [Hconn Hquote].
    by rewrite (quoteDestinationAmount_valid w a b Hv), Hconn, Hquote, Hq.
  - unfold sourceQuery, get. by simplify_map_eq.
  - unfold destinationQuery, get. by simplify_map_eq.
  - done.
  - intros n Hn. cbn. by rewrite (proj2 (Z.leb_le _ _)) by lia.
  - intros n Hn. cbn. by rewrite (proj2 (Z.leb_gt _ _)) by lia.
Qed.

Lemma quote_amount_resolves_witness :
  settle (@quoteSourceAmount samplePlatform (VStr "g.bob") (VNum 5)) sampleWorld
  = (Resolved (VStr "undefined"),
     [CConnect;
      CQuote {[ "destinationAddress" := VStr "g.bob";
                "sourceAmount" := VStr "5" ]}])
  ∧ settle (@quoteDestinationAmount samplePlatform (VStr "g.bob") (VNum 5))
           sampleWorld
    = (Resolved (VStr "12"),
       [CConnect;
        CQuote {[ "destinationAddress" := VStr "g.bob";
                  "destinationAmount" := VStr "5" ]}])
  ∧ @to_string samplePlatform (VNum (-42)) = "-42".
Proof.
  destruct (@quote_amount_resolves samplePlatform sampleWorld (VStr "g.bob")
              (VNum 5)
              (VObj {[ "sourceAmount" := VStr "12";
                       "connectorAccount" := VStr "connie" ]})
              eq_refl eq_refl) as (Hsrc & Hdst & _ & _ & _ & Hsafe & _).
  split; [exact (Hsrc (conj eq_refl eq_refl))|].
  split; [exact (Hdst (conj eq_refl eq_refl))|].
  exact (Hsafe (-42) ltac:(unfold MAX_SAFE_INTEGER; lia)).
Defined.

(** X4: on valid inputs, when the client connects and answers the quote
    with a falsy value, each of the three quoting functions rejects with
    the error 'Got empty quote response from the connector'. *)
Theorem quote_empty_response `{Platform} :
  ∀ sender w a b (request : JSObject) quote,
    truthy quote = false →
    (validAmountQuery a b = true → answers w (sourceQuery a b) quote →
     (settle (quoteSourceAmount a b) w).1 = Rejected emptyQuoteError)
    ∧ (validAmountQuery a b = true → answers w (destinationQuery a b) quote →
       (settle (quoteDestinationAmount a b) w).1 = Rejected emptyQuoteError)
    ∧ (validRequest request = true → answers w (requestQuery request) quote →
       (settle (quoteRequest sender request) w).1 = Rejected emptyQuoteError).
Proof.
  intros sender w a b request quote Hq. split; [|split].
  - intros Hv [Hconn Hquote].
    by rewrite (quoteSourceAmount_valid w a b Hv), Hconn, Hquote, Hq.
  - intros Hv [Hconn Hquote].
    by rewrite (quoteDestinationAmount_valid w a b Hv), Hconn, Hquote, Hq.
  - intros Hv [Hconn Hquote].
    destruct (quoteRequest_valid sender w request Hv) as [params ->].
    by rewrite Hconn, Hquote, Hq.
Qed.

Lemma quote_empty_response_witness :
  (settle (@quoteSourceAmount samplePlatform (VStr "g.bob") (VStr "5"))
          emptyQuoteWorld).1
    = Rejected emptyQuoteError
  ∧ (settle (@quoteDestinationAmount samplePlatform (VStr "g.bob") (VStr "5"))
            emptyQuoteWorld).1
    = Rejected emptyQuoteError
  ∧ (settle (@quoteRequest samplePlatform sampleSender sampleRequest)
            emptyQuoteWorld).1
    = Rejected emptyQuoteError.
Proof.
  destruct (@quote_empty_response samplePlatform sampleSender emptyQuoteWorld
              (VStr "g.bob") (VStr "5") sampleRequest VNull eq_refl)
    as (Hsrc & Hdst & Hreq).
  split; [exact (Hsrc eq_refl (conj eq_refl eq_refl))|].
  split; [exact (Hdst eq_refl (conj eq_refl eq_refl))|].
  exact (Hreq eq_refl (conj eq_refl eq_refl)).
Defined.

(** X5: on valid inputs, a failure of [client.connect()] rejects the
    quoting call with that same error and [client.quote] is not called;
    a failure of [client.quote] after a successful connect rejects the
    call with that same error. *)
Theorem quote_client_failure `{Platform} :
  ∀ sender w a b (request : JSObject) e,
    validAmountQuery a b = true → validRequest request = true →
    (connect_response w = Some e →
     settle (quoteSourceAmount a b) w = (Rejected e, [CConnect])
     ∧ settle (quoteDestinationAmount a b) w = (Rejected e, [CConnect])
     ∧ settle (quoteRequest sender request) w = (Rejected e, [CConnect]))
    ∧ (connect_response w = None →
       (quote_response w (sourceQuery a b) = inl e →
        (settle (quoteSourceAmount a b) w).1 = Rejected e)
       ∧ (quote_response w (destinationQuery a b) = inl e →
          (settle (quoteDestinationAmount a b) w).1 = Rejected e)
       ∧ (quote_response w (requestQuery request) = inl e →
          (settle (quoteRequest sender request) w).1 = Rejected e)).
Proof.
  intros sender w a b request e Hv Hr.
  destruct (quoteRequest_valid sender w request Hr) as [params Hreq].
  rewrite (quoteSourceAmount_valid w a b Hv),
    (quoteDestinationAmount_valid w a b Hv), Hreq.
  split.
  - by intros ->.
  - intros ->. split; [|split]; by intros ->.
Qed.

Lemma quote_client_failure_witness :
  settle (@quoteSourceAmount samplePlatform (VStr "g.bob") (VStr "5"))
         offlineWorld
    = (Rejected (Error "offline"), [CConnect])
  ∧ (settle (@quoteRequest samplePlatform sampleSender sampleRequest)
            noRouteWorld).1
    = Rejected (Error "offline").
Proof.
  split.
  - exact (proj1 (proj1 (@quote_client_failure samplePlatform sampleSender
             offlineWorld (VStr "g.bob") (VStr "5") sampleRequest
             (Error "offline") eq_refl eq_refl) eq_refl)).
  - exact (proj2 (proj2 (proj2 (@quote_client_failure samplePlatform sampleSender
             noRouteWorld (VStr "g.bob") (VStr "5") sampleRequest
             (Error "offline") eq_refl eq_refl) eq_refl)) eq_refl).
Defined.

(** ** Quoting: the parameters returned *)

Section QuotedParams.
Context `{Platform}.
Variable sender : Sender.

Lemma quotedParams_expiresAt t (request : JSObject) quote :
  get (quotedParams sender t request quote) "expiresAt"
  = clampedExpiry sender t (get request "expires_at").
Proof. unfold quotedParams, get. by simplify_map_eq. Qed.

Lemma quotedParams_condition t (request : JSObject) quote :
  get (quotedParams sender t request quote) "executionCondition"
  = get request "condition".
Proof. unfold quotedParams, get. by simplify_map_eq. Qed.

(** Without an expiry the first moment is the current time. *)
Lemma clampedExpiry_missing t :
  0 ≤ maxHoldDuration sender →
  clampedExpiry sender t VUndefined = VStr (toISOString t).
Proof.
  intros Hhold. unfold clampedExpiry. cbn.
  destruct (Z.ltb_spec (t + 1000 * maxHoldDuration sender) t); [lia | done].
Qed.
End QuotedParams.

(** X6: a request without [expires_at] is quoted with [expiresAt] equal to
    the time of the quote itself ([moment(undefined)] is the current
    time), for a sender whose [maxHoldDuration] is not negative: the
    parameters returned are already at their expiry. *)
Theorem quoteRequest_missing_expiry `{Platform} :
  ∀ sender w (request : JSObject) quote,
    validRequest request = true →
    answers w (requestQuery request) quote → truthy quote = true →
    get request "expires_at" = VUndefined →
    0 ≤ maxHoldDuration sender →
    ∃ params : JSObject,
      (settle (quoteRequest sender request) w).1 = Resolved (VObj params)
      ∧ get params "expiresAt" = VStr (toISOString (now w)).
Proof.
  intros sender w request quote Hv Hw Hq Hexp Hhold.
  exists (quotedParams sender (now w) request quote).
  rewrite (quoteRequest_resolves sender w request quote Hv Hw Hq).
  split; [done|].
  by rewrite quotedParams_expiresAt, Hexp, clampedExpiry_missing.
Qed.

Lemma quoteRequest_missing_expiry_witness :
  ∃ params : JSObject,
    (settle (@quoteRequest samplePlatform sampleSender sampleOpenRequest)
            sampleWorld).1 = Resolved (VObj params)
    ∧ get params "expiresAt" = VStr "1000".
Proof.
  exact (@quoteRequest_missing_expiry samplePlatform sampleSender sampleWorld
           sampleOpenRequest
           (VObj {[ "sourceAmount" := VStr "12";
                    "connectorAccount" := VStr "connie" ]})
           eq_refl (conj eq_refl eq_refl) eq_refl eq_refl ltac:(by vm_compute)).
Defined.

(** X7: quoting and then paying.  When the parameters returned by
    [quoteRequest] are paid, the transfer id is derived from the seed and
    the request's condition, and the expiry timer is set for the clamped
    expiry, that is no later than [maxHoldDuration] seconds after the
    quote (for a date format that is read back as written, and a
    submission that completes between 1 ms and 2^31 - 1 ms before that
    expiry). *)
Theorem quote_then_pay `{Platform} :
  ∀ sender w (request : JSObject) quote s t st ref evs0 t1 evs1 t2 r2,
    let expiry := Z.min t (now w + 1000 * maxHoldDuration sender) in
    let call := (payRequest sender st ref).1 in
    let armed := listening sender st ref evs0 t1 evs1 t2 r2 in
    get request "expires_at" = VStr s → momentParse s = Some t →
    momentParse (toISOString expiry) = Some expiry →
    st_store st !! ref = Some (quotedParams sender (now w) request quote) →
    Forall isFulfill evs0 → Forall isFulfill evs1 → accepted r2 →
    (st_clock armed < expiry ≤ st_clock armed + 2147483647) →
    call_transferId call
    = deterministicUuid (uuidSeed sender +:+ to_string (get request "condition"))
    ∧ st_timer armed = Some expiry
    ∧ expiry ≤ now w + 1000 * maxHoldDuration sender.
Proof.
  intros sender w request quote s t st ref evs0 t1 evs1 t2 r2 expiry call armed
         Hexp Ht Hround Hobj H0 H1 Hr2 Hrange.
  split; [|split; [|apply Z.le_min_r]].
  - assert (Hderef : deref st ref = quotedParams sender (now w) request quote)
      by (unfold deref; by rewrite Hobj).
    subst call. rewrite payRequest_transferId. unfold transferId.
    by rewrite Hderef, quotedParams_condition.
  - destruct (listening_armed sender st ref evs0 t1 evs1 t2 r2 H0 H1 Hr2)
      as ((Htimer & _) & _).
    fold call armed in Htimer. rewrite Htimer. f_equal.
    assert (Hstore : st_store armed = st_store (payRequest sender st ref).2)
      by (unfold armed, listening; apply run_store).
    refine (dueTime_expiry sender st ref _ armed expiry Hobj Hstore _ Hrange).
    rewrite quotedParams_expiresAt, Hexp, (clampedExpiry_min _ _ _ _ Ht).
    exact Hround.
Qed.

Lemma quote_then_pay_witness :
  let st := idle {[ 5%nat := @quotedParams samplePlatform sampleSender 1000
                               sampleRequest sampleQuote ]} [] in
  call_transferId (@payRequest samplePlatform sampleSender st 5).1 = "01abcc:0"
  ∧ st_timer (@listening samplePlatform sampleSender st 5 [] 1200 [] 1500 None)
    = Some 11000
  ∧ 11000 ≤ 1000 + 1000 * 10.
Proof.
  intros st.
  pose proof (@quote_then_pay samplePlatform sampleSender sampleWorld
                sampleRequest sampleQuote "60000" 60000 st 5%nat
                [] 1200 [] 1500 None) as W.
  cbv zeta in W.
  specialize (W eq_refl eq_refl eq_refl eq_refl ltac:(constructor)
                ltac:(constructor) I).
  specialize (W ltac:(vm_compute; split; [reflexivity | discriminate])).
  exact W.
Defined.

(** ** [createSender] *)

Example unhex_bytes : unhex "001fa5" = Some [Byte.x00; Byte.x1f; Byte.xa5].
Proof. by vm_compute. Qed.

Lemma unhex_hex_byte (b : Byte.byte) :
  unhex_byte (hex_digit (Byte.to_N b / 16)%N) (hex_digit (Byte.to_N b mod 16)%N)
  = Some b.
Proof. destruct b; by vm_compute. Qed.

Lemma unhex_hex (buf : Buffer) : unhex (hex buf) = Some buf.
Proof.
  induction buf as [|b buf IH]; [done|].
  cbn [hex unhex]. by rewrite unhex_hex_byte, IH.
Qed.

Lemma hex_length (buf : Buffer) :
  String.length (hex buf) = (2 * length buf)%nat.
Proof.
  induction buf as [|b buf IH]; [reflexivity|].
  cbn [hex String.length length]. rewrite IH. lia.
Qed.

(** X8: the seed of a sender is the hexadecimal writing of the seed
    buffer, from which the buffer can be read back: it has two characters
    per byte (64 for the 32 random bytes drawn when no seed is supplied),
    and two senders created with different seed buffers have different
    seeds. *)
Theorem createSender_seed :
  (∀ buf, unhex (hex buf) = Some buf)
  ∧ (∀ opts randomBytes,
       opts_uuidSeed opts = None → length randomBytes = 32%nat →
       uuidSeed (createSender opts randomBytes) = hex randomBytes
       ∧ String.length (uuidSeed (createSender opts randomBytes)) = 64%nat)
  ∧ (∀ opts opts' randomBytes randomBytes' seed seed',
       opts_uuidSeed opts = Some seed → opts_uuidSeed opts' = Some seed' →
       seed ≠ seed' →
       uuidSeed (createSender opts randomBytes)
       ≠ uuidSeed (createSender opts' randomBytes')).
Proof.
  split; [exact unhex_hex|]. split.
  - intros opts rnd Hseed Hlen. unfold createSender. cbn. rewrite Hseed. cbn.
    split; [done|]. rewrite hex_length. lia.
  - intros opts opts' rnd rnd' seed seed' Hs Hs' Hne. unfold createSender. cbn.
    rewrite Hs, Hs'. cbn. intros Heq. apply Hne.
    apply (f_equal unhex) in Heq. rewrite !unhex_hex in Heq. congruence.
Qed.

Lemma createSender_seed_witness :
  String.length
    (uuidSeed (createSender noSeedOpts (replicate 32 Byte.x7f))) = 64%nat
  ∧ uuidSeed (createSender (seedOpts [Byte.x01]) [])
    ≠ uuidSeed (createSender (seedOpts [Byte.x02]) []).
Proof.
  destruct createSender_seed as (_ & Hrandom & Hseeds).
  split.
  - exact (proj2 (Hrandom noSeedOpts (replicate 32 Byte.x7f) eq_refl eq_refl)).
  - exact (Hseeds (seedOpts [Byte.x01]) (seedOpts [Byte.x02]) [] []
             [Byte.x01] [Byte.x02] eq_refl eq_refl ltac:(discriminate)).
Defined.

Lemma or_default_spec opt dflt :
  dflt ≠ 0 →
  or_default opt dflt ≠ 0
  ∧ (∀ n, opt = Some n → n ≠ 0 → or_default opt dflt = n)
  ∧ (opt = None ∨ opt = Some 0 → or_default opt dflt = dflt).
Proof.
  intros Hd. unfold or_default. destruct opt as [n|].
  - destruct (Z.eqb_spec n 0) as [-> | Hn].
    + split; [done|]. split; [by intros n [= <-] | done].
    + split; [done|]. split; [by intros m [= <-]|].
      by intros [[=] | [= ->]].
  - split; [done|]. split; [by intros n [=] | done].
Qed.

(** X9: the hold duration and the request timeout of a sender are never
    zero: an option that is absent or [0] is replaced by the default (10
    and 30 seconds), any other number is taken as it is. *)
Theorem createSender_defaults :
  ∀ opts randomBytes,
    let sender := createSender opts randomBytes in
    maxHoldDuration sender ≠ 0 ∧ defaultRequestTimeout sender ≠ 0
    ∧ (∀ n, opts_maxHoldDuration opts = Some n → n ≠ 0 →
            maxHoldDuration sender = n)
    ∧ (∀ n, opts_defaultRequestTimeout opts = Some n → n ≠ 0 →
            defaultRequestTimeout sender = n)
    ∧ (opts_maxHoldDuration opts = None ∨ opts_maxHoldDuration opts = Some 0 →
       maxHoldDuration sender = 10)
    ∧ (opts_defaultRequestTimeout opts = None
       ∨ opts_defaultRequestTimeout opts = Some 0 →
       defaultRequestTimeout sender = 30).
Proof.
  intros opts rnd sender. subst sender. unfold createSender. cbn.
  destruct (or_default_spec (opts_maxHoldDuration opts) 10 ltac:(done))
    as (? & ? & ?).
  destruct (or_default_spec (opts_defaultRequestTimeout opts) 30 ltac:(done))
    as (? & ? & ?).
  done.
Qed.

Lemma createSender_defaults_witness :
  maxHoldDuration (createSender noSeedOpts []) = 10
  ∧ defaultRequestTimeout (createSender noSeedOpts []) = 45.
Proof.
  destruct (createSender_defaults noSeedOpts []) as (_ & _ & _ & Hd & Hm & _).
  split.
  - apply Hm. by right.
  - by apply Hd.
Defined.

(** ** [createRequest]: the request returned *)

Lemma append_nonempty (x y : string) c : x +:+ String c y ≠ "".
Proof. by destruct x. Qed.

Section CreatedRequest.
Context `{Platform}.
Variable sender : Sender.
Variable env : Entropy.

Lemma conditionFields_address (params : JSObject) :
  get (conditionFields sender env params) "address"
  = VStr (to_string (get params "destinationAccount") +:+ "." +:+
          discriminator env params).
Proof. unfold conditionFields. by rewrite !get_insert_eq. Qed.

Lemma conditionFields_amount (params : JSObject) :
  get (conditionFields sender env params) "amount"
  = get params "destinationAmount".
Proof. unfold conditionFields, get. by simplify_map_eq. Qed.

(** The request returned: the hashed fields, the encrypted data if data
    was given, and the condition. *)
Lemma createRequest_shape (params : JSObject) s :
  get params "sharedSecret" = VStr s →
  createRequest sender env params
  = inr (<[ "condition" :=
              derivedCondition (conditionFields sender env params) s ]>
           (if truthy (get params "data")
            then <[ "data" := encryptedData env params (base64Decode s) ]>
                   (conditionFields sender env params)
            else conditionFields sender env params)).
Proof.
  intros Hs. unfold createRequest. rewrite Hs. cbn [sharedSecretBuffer].
  by rewrite assign_singleton, assign_empty.
Qed.

Lemma createRequest_hashed_field (params : JSObject) s request k :
  get params "sharedSecret" = VStr s →
  createRequest sender env params = inr request →
  k ∈ ["address"; "amount"; "expires_at"] →
  get request k = get (conditionFields sender env params) k.
Proof.
  intros Hs Hr Hk. rewrite (createRequest_shape params s Hs) in Hr.
  injection Hr as <-.
  assert (k ≠ "condition" ∧ k ≠ "data") as [Hc Hd].
  { split; intros ->;
      repeat (apply elem_of_cons in Hk as [Hk | Hk]; [discriminate|]);
      by apply elem_of_nil in Hk. }
  rewrite get_insert_ne by done.
  destruct (truthy (get params "data")); [by rewrite get_insert_ne | done].
Qed.

Lemma createRequest_address (params : JSObject) s :
  get params "sharedSecret" = VStr s →
  ∃ request : JSObject,
    createRequest sender env params = inr request
    ∧ get request "address"
      = VStr (to_string (get params "destinationAccount") +:+ "." +:+
              discriminator env params)
    ∧ truthy (get request "address") = true.
Proof.
  intros Hs. pose proof (createRequest_shape params s Hs) as Hr.
  eexists. split; [exact Hr|].
  rewrite (createRequest_hashed_field params s _ "address" Hs Hr) by in_list.
  rewrite conditionFields_address. split; [done|].
  cbn. apply negb_true_iff, String.eqb_neq, append_nonempty.
Qed.
End CreatedRequest.

(** X10: the address of a created request is always a non-empty string:
    the destination account as a string, a dot, and the discriminator,
    which is the caller's id when it is truthy and the random uuid
    otherwise.  Requests for the same account with different
    discriminators have different addresses, hence different hashed
    fields. *)
Theorem createRequest_discriminator `{Platform} :
  (∀ sender env (params : JSObject) s,
     get params "sharedSecret" = VStr s →
     ∃ request : JSObject,
       createRequest sender env params = inr request
       ∧ get request "address"
         = VStr (to_string (get params "destinationAccount") +:+ "." +:+
                 discriminator env params)
       ∧ truthy (get request "address") = true)
  ∧ (∀ env (params : JSObject),
       (truthy (get params "id") = true →
        discriminator env params = to_string (get params "id"))
       ∧ (truthy (get params "id") = false →
          discriminator env params = e_uuid_v4 env))
  ∧ (∀ sender sender' env env' (params params' : JSObject),
       get params "destinationAccount" = get params' "destinationAccount" →
       discriminator env params ≠ discriminator env' params' →
       get (conditionFields sender env params) "address"
       ≠ get (conditionFields sender' env' params') "address"
       ∧ conditionFields sender env params
         ≠ conditionFields sender' env' params').
Proof.
  split; [|split].
  - intros sender env params s Hs.
    exact (createRequest_address sender env params s Hs).
  - intros env params. unfold discriminator, or.
    split; intros ->; done.
  - intros sender sender' env env' params params' Hacc Hne.
    assert (Haddr : get (conditionFields sender env params) "address"
                    ≠ get (conditionFields sender' env' params') "address").
    { rewrite !conditionFields_address, Hacc. intros [= Heq].
      apply append_inj_l in Heq. by injection Heq. }
    split; [done|]. intros Heq. by rewrite Heq in Haddr.
Qed.

Lemma createRequest_discriminator_witness :
  (∃ request : JSObject,
     @createRequest samplePlatform sampleSender sampleEntropy sampleBareParams
       = inr request
     ∧ get request "address"
       = VStr "g.bob.110ec58a-a0f2-4ac4-8393-c866d813b8d1")
  ∧ get (@conditionFields samplePlatform sampleSender sampleEntropy
           sampleBareParams) "address"
    ≠ get (@conditionFields samplePlatform sampleSender otherEntropy
             sampleBareParams) "address".
Proof.
  destruct (@createRequest_discriminator samplePlatform) as (Haddr & _ & Hdiff).
  split.
  - destruct (Haddr sampleSender sampleEntropy sampleBareParams "c2VjcmV0"
                eq_refl) as (request & Hr & Ha & _).
    exists request. split; [exact Hr | exact Ha].
  - exact (proj1 (Hdiff sampleSender sampleSender sampleEntropy otherEntropy
                    sampleBareParams sampleBareParams eq_refl
                    ltac:(vm_compute; discriminate))).
Defined.

(** X11: the properties of a created request are [address], [amount],
    [expires_at] and [condition], and [data] exactly when data was given:
    neither the shared secret nor the id is a property of the request. *)
Theorem createRequest_properties `{Platform} :
  ∀ sender env (params : JSObject) s,
    get params "sharedSecret" = VStr s →
    ∃ request : JSObject,
      createRequest sender env params = inr request
      ∧ dom request
        = ({[ "address"; "amount"; "expires_at"; "condition" ]}
           ∪ (if truthy (get params "data") then {[ "data" ]} else ∅)
           : gset string)
      ∧ request !! "sharedSecret" = None
      ∧ request !! "id" = None.
Proof.
  intros sender env params s Hs.
  pose proof (createRequest_shape sender env params s Hs) as Hr.
  eexists. split; [exact Hr|].
  assert (Hdom : dom (<[ "condition" :=
              derivedCondition (conditionFields sender env params) s ]>
           (if truthy (get params "data")
            then <[ "data" := encryptedData env params (base64Decode s) ]>
                   (conditionFields sender env params)
            else conditionFields sender env params))
        = ({[ "address"; "amount"; "expires_at"; "condition" ]}
           ∪ (if truthy (get params "data") then {[ "data" ]} else ∅)
           : gset string)).
  { destruct (truthy (get params "data"));
      rewrite !dom_insert_L, conditionFields_dom; set_solver. }
  split; [exact Hdom|].
  split; apply not_elem_of_dom; rewrite Hdom;
    destruct (truthy (get params "data")); set_solver.
Qed.

Lemma createRequest_properties_witness :
  ∃ request : JSObject,
    @createRequest samplePlatform sampleSender sampleEntropy sampleBareParams
      = inr request
    ∧ request !! "sharedSecret" = None
    ∧ request !! "data" = None.
Proof.
  destruct (@createRequest_properties samplePlatform sampleSender sampleEntropy
              sampleBareParams "c2VjcmV0" eq_refl)
    as (request & Hr & Hdom & Hsecret & _).
  exists request. split; [exact Hr|]. split; [exact Hsecret|].
  apply not_elem_of_dom. rewrite Hdom. by vm_compute.
Defined.

(** X12: [createRequest] checks nothing but the shared secret.  Without
    one ([undefined] or [null]) it raises a [TypeError] and returns no
    request; with a string secret it returns a request whatever the other
    parameters are, even when the account and the amount are missing, in
    which case the address starts with 'undefined.'. *)
Theorem createRequest_shared_secret `{Platform} :
  ∀ sender env (params : JSObject),
    (get params "sharedSecret" = VUndefined ∨ get params "sharedSecret" = VNull →
     ∃ e, createRequest sender env params = inl e ∧ err_name e = "TypeError")
    ∧ (∀ s, get params "sharedSecret" = VStr s →
            ∃ request : JSObject,
              createRequest sender env params = inr request
              ∧ (get params "destinationAccount" = VUndefined →
                 get request "address"
                 = VStr ("undefined." +:+ discriminator env params)
                 ∧ get request "amount" = get params "destinationAmount")).
Proof.
  intros sender env params. split.
  - intros [Hs | Hs]; unfold createRequest; rewrite Hs; by eexists.
  - intros s Hs.
    pose proof (createRequest_shape sender env params s Hs) as Hr.
    eexists. split; [exact Hr|]. intros Hacc.
    rewrite !(createRequest_hashed_field sender env params s _ _ Hs Hr)
      by in_list.
    by rewrite conditionFields_address, conditionFields_amount, Hacc.
Qed.

Lemma createRequest_shared_secret_witness :
  (∃ e, @createRequest samplePlatform sampleSender sampleEntropy
          (delete "sharedSecret" sampleBareParams) = inl e
        ∧ err_name e = "TypeError")
  ∧ (∃ request : JSObject,
       @createRequest samplePlatform sampleSender sampleEntropy
         secretOnlyParams = inr request
       ∧ get request "address"
         = VStr "undefined.110ec58a-a0f2-4ac4-8393-c866d813b8d1").
Proof.
  split.
  - exact (proj1 (@createRequest_shared_secret samplePlatform sampleSender
                    sampleEntropy (delete "sharedSecret" sampleBareParams))
             (or_introl eq_refl)).
  - destruct (proj2 (@createRequest_shared_secret samplePlatform sampleSender
                       sampleEntropy secretOnlyParams)
                "c2VjcmV0" eq_refl) as (request & Hr & Hmissing).
    exists request. split; [exact Hr | exact (proj1 (Hmissing eq_refl))].
Defined.

(** X13: a request created with a truthy amount and a non-empty
    condition passes the checks of [quoteRequest]: quoting it reaches the
    client, and the query carries the address with the discriminator and
    the amount given to [createRequest]. *)
Theorem createRequest_then_quoteRequest `{Platform} :
  ∀ sender sender' env (params : JSObject) s w,
    get params "sharedSecret" = VStr s →
    truthy (get params "destinationAmount") = true →
    truthy (derivedCondition (conditionFields sender env params) s) = true →
    ∃ request : JSObject,
      createRequest sender env params = inr request
      ∧ validRequest request = true
      ∧ (settle (quoteRequest sender' request) w).2 ≠ []
      ∧ requestQuery request
        = {[ "destinationAddress" :=
               VStr (to_string (get params "destinationAccount") +:+ "." +:+
                     discriminator env params);
             "destinationAmount" := get params "destinationAmount" ]}.
Proof.
  intros sender sender' env params s w Hs Hamount Hcond.
  destruct (createRequest_address sender env params s Hs)
    as (request & Hr & Haddr & Htruthy).
  exists request. split; [exact Hr|].
  assert (Ham : get request "amount" = get params "destinationAmount").
  { rewrite (createRequest_hashed_field sender env params s _ _ Hs Hr)
      by in_list.
    apply conditionFields_amount. }
  assert (Hc : get request "condition"
               = derivedCondition (conditionFields sender env params) s).
  { rewrite (createRequest_shape sender env params s Hs) in Hr.
    injection Hr as <-. apply get_insert_eq. }
  assert (Hv : validRequest request = true).
  { unfold validRequest. by rewrite Htruthy, Ham, Hamount, Hc, Hcond. }
  split; [exact Hv|]. split.
  - destruct (quoteRequest_valid sender' w request Hv) as [quoted ->].
    by destruct (connect_response w).
  - unfold requestQuery. by rewrite Haddr, Ham.
Qed.

Lemma createRequest_then_quoteRequest_witness :
  ∃ request : JSObject,
    @createRequest samplePlatform sampleSender sampleEntropy sampleBareParams
      = inr request
    ∧ (settle (@quoteRequest samplePlatform sampleSender request) sampleWorld).2
      ≠ [].
Proof.
  destruct (@createRequest_then_quoteRequest samplePlatform sampleSender
              sampleSender sampleEntropy sampleBareParams "c2VjcmV0" sampleWorld
              eq_refl eq_refl ltac:(by vm_compute))
    as (request & Hr & _ & Hlog & _).
  exists request. split; [exact Hr | exact Hlog].
Defined.

(** ** [payRequest]: failures before the listener exists *)

Section BeforeListening.
Context `{Platform}.
Variable call : Call.
Variable listeners : list nat.
Variable condition : JSValue.

Lemma set_clock_id st : set_clock (st_clock st) st = st.
Proof. by destruct st. Qed.

(** Until the listener exists, fulfillment events change nothing but the
    clock. *)
Lemma quiet_run_clock ph timeline st :
  Forall isFulfill timeline → Quiet call listeners condition ph st →
  ∃ t, run call st timeline = set_clock t st.
Proof.
  intros Hall. revert st.
  induction Hall as [|e tl He _ IH]; intros st Hq.
  - exists (st_clock st). by rewrite set_clock_id.
  - assert (Hstep : step call (advance e.1 st) e.2
                    = set_clock (Z.max (st_clock st) e.1) st).
    { destruct e as [t [| | |transfer fulfillment]]; try done.
      rewrite (quiet_advance _ _ _ _ _ _ Hq). cbn [fst snd step].
      unfold emit. cbn. by rewrite (proj1 (proj2 Hq)). }
    destruct (IH (set_clock (Z.max (st_clock st) e.1) st)
                 (quiet_set_clock _ _ _ _ _ _ Hq)) as [t Ht].
    exists t. unfold run in *. cbn [fold_left]. by rewrite Hstep, Ht.
Qed.
End BeforeListening.

Lemma run_singleton `{Platform} call st t s :
  run call st [(t, s)] = step call (advance t st) s.
Proof. reflexivity. Qed.

(** X14: when [client.connect()] fails with an error that is neither a
    duplicate-id nor a missing-fulfillment error, [payRequest] rejects
    with that same error: the transfer is not submitted, no listener is
    registered and no timer is set. *)
Theorem payRequest_connect_failure `{Platform} :
  ∀ sender st ref evs0 t err,
    let call := (payRequest sender st ref).1 in
    let final :=
      run call (payRequest sender st ref).2 (evs0 ++ [(t, ConnectDone (Some err))]) in
    Forall isFulfill evs0 → fatal err →
    st_result final = Done (Rejected err)
    ∧ st_log final = st_log st ++ [CConnect]
    ∧ st_listeners final = st_listeners st
    ∧ st_timer final = None.
Proof.
  intros sender st ref evs0 t err call final H0 [Hdup Hmiss]. subst final.
  rewrite run_app.
  destruct (quiet_run_clock call _ _ Connecting evs0 _ H0
              (payRequest_quiet sender st ref)) as [c ->].
  cbn -[submitted]. by rewrite submitted_fatal.
Qed.

Lemma payRequest_connect_failure_witness :
  let final :=
    @run samplePlatform
      (@payRequest samplePlatform sampleSender (idle sampleStore [7%nat]) 5).1
      (@payRequest samplePlatform sampleSender (idle sampleStore [7%nat]) 5).2
      ([(1, fulfillEvent "cc:0" "early")]
       ++ [(2, ConnectDone (Some (Error "offline")))]) in
  st_result final = Done (Rejected (Error "offline"))
  ∧ st_log final = [] ++ [CConnect]
  ∧ st_listeners final = [7%nat]
  ∧ st_timer final = None.
Proof.
  pose proof (@payRequest_connect_failure samplePlatform sampleSender
                (idle sampleStore [7%nat]) 5%nat
                [(1, fulfillEvent "cc:0" "early")] 2 (Error "offline")) as W.
  cbv zeta in W.
  assert (Hfatal : fatal (Error "offline")) by (split; discriminate).
  exact (W ltac:(repeat constructor) Hfatal).
Defined.

(** X15: when the submission fails with an error that is neither a
    duplicate-id nor a missing-fulfillment error, [payRequest] rejects
    with that same error at once: after [connect] and the one
    [sendQuotedPayment] it makes no further client call, registers no
    listener and sets no timer. *)
Theorem payRequest_submit_failure `{Platform} :
  ∀ sender st ref evs0 t1 evs1 t2 err,
    let call := (payRequest sender st ref).1 in
    let started := (payRequest sender st ref).2 in
    let final :=
      run call started
          (evs0 ++ [(t1, ConnectDone None)] ++ evs1
           ++ [(t2, SendDone (Some err))]) in
    Forall isFulfill evs0 → Forall isFulfill evs1 → fatal err →
    st_result final = Done (Rejected err)
    ∧ st_log final
      = st_log st ++ [CConnect; CSendQuotedPayment (deref started ref)]
    ∧ st_listeners final = st_listeners st
    ∧ st_timer final = None.
Proof.
  intros sender st ref evs0 t1 evs1 t2 err call started final H0 H1
         [Hdup Hmiss].
  subst final. rewrite !run_app.
  pose proof (payRequest_quiet sender st ref) as Hq.
  destruct (quiet_run_clock call _ _ Connecting evs0 _ H0 Hq) as [c Hc].
  fold call started in Hc. rewrite Hc.
  apply (quiet_set_clock _ _ _ _ c) in Hq.
  apply (quiet_connect _ _ _ t1) in Hq.
  destruct (quiet_run_clock call _ _ Submitting evs1 _ H1 Hq) as [c' Hc'].
  fold call started in Hc'.
  rewrite !run_singleton, Hc'.
  cbn -[submitted]. rewrite submitted_fatal by done. cbn.
  by rewrite <- !app_assoc.
Qed.

Lemma payRequest_submit_failure_witness :
  let final :=
    @run samplePlatform sampleCall
      (@payRequest samplePlatform sampleSender (idle sampleStore [7%nat]) 5).2
      ([] ++ [(1, ConnectDone None)] ++ []
       ++ [(2, SendDone (Some (Error "insufficient funds")))]) in
  st_result final = Done (Rejected (Error "insufficient funds"))
  ∧ st_listeners final = [7%nat]
  ∧ st_timer final = None.
Proof.
  pose proof (@payRequest_submit_failure samplePlatform sampleSender
                (idle sampleStore [7%nat]) 5%nat [] 1 [] 2
                (Error "insufficient funds")) as W.
  cbv zeta in W.
  assert (Hfatal : fatal (Error "insufficient funds")) by (split; discriminate).
  destruct (W ltac:(constructor) ltac:(constructor) Hfatal)
    as (Hres & _ & Hls & Htimer).
  exact (conj Hres (conj Hls Htimer)).
Defined.

(** ** [payRequest]: paying the same parameters again *)

Section PayAgain.
Context `{Platform}.
Variable sender : Sender.

Lemma transferId_ignores_uuid (obj : JSObject) v :
  transferId sender (<[ "uuid" := v ]> obj) = transferId sender obj.
Proof. unfold transferId. by rewrite get_insert_ne. Qed.
End PayAgain.

(** X16: paying the same parameters object a second time, after any
    timeline of the first call, computes the same transfer id and leaves
    the object as the first call left it; when the second submission is
    then refused as a duplicate, the call looks up the fulfillment of
    that same transfer id. *)
Theorem payRequest_again `{Platform} :
  ∀ sender st ref (obj : JSObject) timeline t t' err,
    let first := payRequest sender st ref in
    let mid := run first.1 first.2 timeline in
    let second := payRequest sender mid ref in
    let polling :=
      run second.1 second.2 [(t, ConnectDone None); (t', SendDone (Some err))] in
    st_store st !! ref = Some obj →
    err_name err = "DuplicateIdError" →
    call_transferId second.1 = call_transferId first.1
    ∧ st_store second.2 = st_store mid
    ∧ st_phase polling = Polling
    ∧ ∃ log, st_log polling
             = log ++ [CGetFulfillment (call_transferId first.1)].
Proof.
  intros sender st ref obj timeline t t' err first mid second polling Hobj Hdup.
  assert (Hmid : st_store mid
                 = <[ ref := <[ "uuid" := VStr (transferId sender obj) ]> obj ]>
                     (st_store st)).
  { subst mid first. rewrite run_store. cbn. unfold deref.
    by rewrite Hobj, assign_singleton. }
  assert (Hderef : deref mid ref = <[ "uuid" := VStr (transferId sender obj) ]> obj)
    by (unfold deref; by rewrite Hmid, lookup_insert_eq).
  assert (Hfirst : call_transferId first.1 = transferId sender obj)
    by (subst first; rewrite payRequest_transferId; unfold deref; by rewrite Hobj).
  assert (Hid : call_transferId second.1 = call_transferId first.1).
  { subst second. by rewrite payRequest_transferId, Hderef,
      transferId_ignores_uuid, Hfirst. }
  split; [exact Hid|]. split.
  - subst second. cbn. rewrite Hderef, transferId_ignores_uuid, assign_singleton.
    rewrite insert_insert_eq, Hmid. by rewrite !insert_insert_eq.
  - pose proof (payRequest_submission_failure sender mid ref t t' err) as W.
    cbv zeta in W. destruct W as (_ & Hpoll & _).
    destruct (Hpoll Hdup) as (Hph & _ & Hlog).
    split; [exact Hph|]. rewrite <- Hid.
    eexists (_ ++ [_]). rewrite <- app_assoc. exact Hlog.
Qed.

Lemma payRequest_again_witness :
  let first := @payRequest samplePlatform sampleSender (idle sampleStore []) 5 in
  let mid := @run samplePlatform first.1 first.2
               [(1, ConnectDone None); (2, SendDone None)] in
  let second := @payRequest samplePlatform sampleSender mid 5 in
  call_transferId second.1 = call_transferId first.1
  ∧ st_store second.2 = st_store mid.
Proof.
  pose proof (@payRequest_again samplePlatform sampleSender (idle sampleStore [])
                5%nat sampleParams [(1, ConnectDone None); (2, SendDone None)]
                3 4 duplicateIdError) as W.
  cbv zeta in W. destruct (W eq_refl eq_refl) as (Hid & Hstore & _).
  intros first mid second. split; [exact Hid | exact Hstore].
Defined.

(** ** [payRequest]: the listen path *)

Lemma timerDelay_range ms : 1 ≤ timerDelay ms ≤ 2147483647.
Proof.
  unfold timerDelay. destruct ms as [n|]; [|lia].
  destruct (Z.leb_spec 1 n), (Z.leb_spec n 2147483647); cbn; lia.
Qed.

Section ListenPath.
Context `{Platform}.
Variable call : Call.
Variable listeners : list nat.
Variable condition : JSValue.

Lemma dueTime_range st :
  st_clock st + 1 ≤ dueTime call st ≤ st_clock st + 2147483647.
Proof.
  unfold dueTime.
  pose proof (timerDelay_range
    (moment_diff (moment (st_clock st) (get (payment call st) "expiresAt"))
                 (moment (st_clock st) VUndefined))). lia.
Qed.

Lemma holding_advance due ph t st :
  Holding call listeners condition due ph st → t < due →
  Holding call listeners condition due ph (advance t st).
Proof.
  intros (Ha & Hclock & Hp & Hr) Ht.
  destruct (advance_armed call listeners condition t _ _ Ha)
    as [[Hlt ->] | [Hge _]]; [|lia].
  split; [by apply set_clock_armed|]. by repeat split.
Qed.

Lemma holding_event due ph e st :
  Holding call listeners condition due ph st → otherBefore condition due e →
  Holding call listeners condition due ph (step call (advance e.1 st) e.2).
Proof.
  destruct e as [t [| | |transfer fulfillment]]; intros Hh [Ht Hm]; try done.
  cbn [fst snd] in *. apply (holding_advance _ _ t) in Hh; [|done].
  cbn [step]. rewrite (emit_armed _ _ _ _ _ _ _ (proj1 Hh)). by rewrite Hm.
Qed.

Lemma holding_run due ph timeline st :
  Forall (otherBefore condition due) timeline →
  Holding call listeners condition due ph st →
  Holding call listeners condition due ph (run call st timeline).
Proof.
  intros Hall. revert st.
  induction Hall as [|e tl He _ IH]; intros st Hh; [done|].
  apply IH. by apply holding_event.
Qed.

Lemma holding_lookup due t r st :
  Holding call listeners condition due Polling st → notFulfilled r → t < due →
  Holding call listeners condition due Waiting
          (step call (advance t st) (LookupDone r)).
Proof.
  intros Hh Hr Ht. apply (holding_advance _ _ t) in Hh; [|done].
  destruct Hh as (Ha & Hclock & Hp & Hres).
  unfold step. rewrite Hp. unfold lookedUp.
  pose proof Ha as (? & ? & ? & Hpend & ?).
  assert (Hgoal : Holding call listeners condition due Waiting
                          (set_phase Waiting (advance t st))).
  { split; [|by repeat split]. destruct Ha as (? & ? & ? & ? & ?).
    by repeat split. }
  destruct r as [err | v]; cbn in Hr; rewrite Hr; cbn; by rewrite Hpend.
Qed.

(** The first event for this payment, before the timer is due, settles
    the listener's promise with its fulfillment. *)
Lemma holding_match due ph t transfer fulfillment st :
  Holding call listeners condition due ph st → t < due →
  matching condition transfer = true →
  Kept listeners (Resolved fulfillment)
       (match ph with Waiting => Finished | _ => ph end)
       (match ph with Waiting => Done (Resolved fulfillment) | _ => Pending end)
       (step call (advance t st) (OutgoingFulfill transfer fulfillment)).
Proof.
  intros Hh Ht Hm. apply (holding_advance _ _ t) in Hh; [|done].
  destruct Hh as (Ha & Hclock & Hp & Hres).
  cbn [step]. rewrite (emit_armed _ _ _ _ _ _ _ Ha), Hm.
  destruct (release_armed call listeners condition (Resolved fulfillment) _ _ Ha)
    as (Hrel & _ & _ & Hfollow).
  split; [exact Hrel|]. rewrite Hp, Hres in Hfollow. by destruct ph.
Qed.

Lemma kept_advance s ph res t st :
  Kept listeners s ph res st → Kept listeners s ph res (advance t st).
Proof.
  intros (Hrel & Hp & Hr). rewrite (advance_released _ _ _ _ Hrel).
  split; [by apply set_clock_released | done].
Qed.

Lemma kept_event s ph res e st :
  isFulfill e → Kept listeners s ph res st →
  Kept listeners s ph res (step call (advance e.1 st) e.2).
Proof.
  destruct e as [t [| | |transfer fulfillment]]; intros He Hk; try done.
  apply (kept_advance _ _ _ t) in Hk. cbn [fst snd step].
  by rewrite (emit_released _ _ _ _ _ _ (proj1 Hk)).
Qed.

Lemma kept_run s ph res timeline st :
  Forall isFulfill timeline → Kept listeners s ph res st →
  Kept listeners s ph res (run call st timeline).
Proof.
  intros Hall. revert st.
  induction Hall as [|e tl He _ IH]; intros st Hk; [done|].
  apply IH. by apply kept_event.
Qed.

(** A lookup that finds nothing hands the settled promise on. *)
Lemma kept_lookup s t r st :
  Kept listeners s Polling Pending st → notFulfilled r →
  Kept listeners s Finished (Done s) (step call (advance t st) (LookupDone r)).
Proof.
  intros Hk Hr. apply (kept_advance _ _ _ t) in Hk.
  destruct Hk as (Hrel & Hp & Hres).
  unfold step. rewrite Hp. unfold lookedUp.
  pose proof Hrel as (? & ? & ? & Hdone).
  assert (Hgoal : Kept listeners s Finished (Done s) (finish s (advance t st))).
  { split; [|done]. destruct Hrel as (? & ? & ? & ?). by repeat split. }
  destruct r as [err | v]; cbn in Hr; rewrite Hr; cbn; by rewrite Hdone.
Qed.

(** A lookup that fails otherwise rejects the call, whatever the
    listener has seen. *)
Lemma settling_lookup_error due t err st :
  err_name err ≠ "MissingFulfillmentError" →
  Settling call listeners condition due Polling Pending st →
  Settling call listeners condition due Finished (Done (Rejected err))
           (step call (advance t st) (LookupDone (inl err))).
Proof.
  intros Hname Hs.
  destruct (settling_advance call listeners condition due Polling Pending t st
              ltac:(done) Hs) as [(Hl & Hp & Hr) _].
  unfold step. rewrite Hp. unfold lookedUp.
  apply String.eqb_neq in Hname. rewrite Hname.
  split; [|done].
  destruct Hl as [(? & ? & ? & ? & ?) | [s (? & ? & ? & ?)]];
    [left | right; exists s]; by repeat split.
Qed.
End ListenPath.

Section ListenOutcomes.
Context `{Platform}.
Variable sender : Sender.
Variable st : State.
Variable ref : nat.

Local Abbreviation call := (payRequest sender st ref).1.
Local Abbreviation started := (payRequest sender st ref).2.
Local Abbreviation condition := (get (deref started ref) "executionCondition").

Lemma listening_holding evs0 t1 evs1 t2 r :
  Forall isFulfill evs0 → Forall isFulfill evs1 → accepted r →
  let armed := listening sender st ref evs0 t1 evs1 t2 r in
  Holding call (st_listeners st) condition (dueTime call armed) Polling armed.
Proof.
  intros H0 H1 Hr armed.
  destruct (listening_armed sender st ref evs0 t1 evs1 t2 r H0 H1 Hr)
    as (Ha & Hp & Hres & _).
  split; [exact Ha|]. split; [|by split].
  pose proof (dueTime_range call armed). lia.
Qed.

Lemma listening_settling evs0 t1 evs1 t2 r :
  Forall isFulfill evs0 → Forall isFulfill evs1 → accepted r →
  let armed := listening sender st ref evs0 t1 evs1 t2 r in
  Settling call (st_listeners st) condition (dueTime call armed)
           Polling Pending armed.
Proof.
  intros H0 H1 Hr armed.
  destruct (listening_armed sender st ref evs0 t1 evs1 t2 r H0 H1 Hr)
    as (Ha & Hp & Hres & _).
  split; [by left | by split].
Qed.

(** The listen path: nothing on record, then the event. *)
Lemma payRequest_event_after_lookup
    evs0 t1 evs1 t2 r2 evs2 t3 r3 evs3 tm transfer fulfillment evs4 tend :
  let armed := listening sender st ref evs0 t1 evs1 t2 r2 in
  let due := dueTime call armed in
  let final :=
    advance tend
      (run call armed
         (evs2 ++ [(t3, LookupDone r3)] ++ evs3
          ++ [(tm, OutgoingFulfill transfer fulfillment)] ++ evs4)) in
  Forall isFulfill evs0 → Forall isFulfill evs1 → accepted r2 →
  notFulfilled r3 → t3 < due →
  Forall (otherBefore condition due) (evs2 ++ evs3) →
  tm < due → matching condition transfer = true →
  Forall isFulfill evs4 →
  Kept (st_listeners st) (Resolved fulfillment) Finished
       (Done (Resolved fulfillment)) final.
Proof.
  intros armed due final H0 H1 Hr2 Hr3 Ht3 Hother Htm Hm H4.
  apply Forall_app in Hother as [Hother2 Hother3].
  pose proof (listening_holding evs0 t1 evs1 t2 r2 H0 H1 Hr2) as Hh.
  fold armed due in Hh.
  apply (holding_run _ _ _ _ _ evs2 _ Hother2) in Hh.
  apply (holding_lookup _ _ _ _ t3 r3 _) in Hh; [|done | done].
  apply (holding_run _ _ _ _ _ evs3 _ Hother3) in Hh.
  apply (holding_match _ _ _ _ _ tm transfer fulfillment _) in Hh;
    [|done | done].
  apply (kept_run call _ _ _ _ evs4 _ H4) in Hh.
  subst final. rewrite !run_app. cbn [run fold_left fst snd].
  by apply kept_advance.
Qed.

(** The event arrives while the lookup is still pending. *)
Lemma payRequest_event_before_lookup
    evs0 t1 evs1 t2 r2 evs2 tm transfer fulfillment evs3 t3 r3 evs4 tend :
  let armed := listening sender st ref evs0 t1 evs1 t2 r2 in
  let due := dueTime call armed in
  let final :=
    advance tend
      (run call armed
         (evs2 ++ [(tm, OutgoingFulfill transfer fulfillment)] ++ evs3
          ++ [(t3, LookupDone r3)] ++ evs4)) in
  Forall isFulfill evs0 → Forall isFulfill evs1 → accepted r2 →
  Forall (otherBefore condition due) evs2 →
  tm < due → matching condition transfer = true →
  Forall isFulfill evs3 → notFulfilled r3 → Forall isFulfill evs4 →
  Kept (st_listeners st) (Resolved fulfillment) Finished
       (Done (Resolved fulfillment)) final.
Proof.
  intros armed due final H0 H1 Hr2 Hother Htm Hm H3 Hr3 H4.
  pose proof (listening_holding evs0 t1 evs1 t2 r2 H0 H1 Hr2) as Hh.
  fold armed due in Hh.
  apply (holding_run _ _ _ _ _ evs2 _ Hother) in Hh.
  apply (holding_match _ _ _ _ _ tm transfer fulfillment _) in Hh;
    [|done | done].
  apply (kept_run call _ _ _ _ evs3 _ H3) in Hh.
  apply (kept_lookup call _ _ t3 r3 _) in Hh; [|done].
  apply (kept_run call _ _ _ _ evs4 _ H4) in Hh.
  subst final. rewrite !run_app. cbn [run fold_left fst snd].
  by apply kept_advance.
Qed.

(** A failing lookup. *)
Lemma payRequest_lookup_error evs0 t1 evs1 t2 r2 evs2 t3 err evs3 tend :
  let armed := listening sender st ref evs0 t1 evs1 t2 r2 in
  let final :=
    advance tend (run call armed (evs2 ++ [(t3, LookupDone (inl err))] ++ evs3)) in
  Forall isFulfill evs0 → Forall isFulfill evs1 → accepted r2 →
  Forall isFulfill evs2 → err_name err ≠ "MissingFulfillmentError" →
  Forall isFulfill evs3 →
  st_result final = Done (Rejected err)
  ∧ (dueTime call armed ≤ tend → st_listeners final = st_listeners st).
Proof.
  intros armed final H0 H1 Hr2 H2 Hname H3.
  pose proof (listening_settling evs0 t1 evs1 t2 r2 H0 H1 Hr2) as Hs.
  fold armed in Hs.
  apply (settling_run _ _ _ _ _ _ evs2) in Hs; [|done | done].
  apply (settling_lookup_error _ _ _ _ t3 err _ Hname) in Hs.
  apply (settling_run _ _ _ _ _ _ evs3) in Hs; [|done | done].
  subst final. rewrite !run_app. cbn [run fold_left fst snd].
  destruct (settling_advance _ _ _ _ Finished _ tend _ ltac:(done) Hs)
    as [(_ & _ & Hres) Hgone].
  split; [exact Hres|]. intros Hdue. apply Hgone. lia.
Qed.
End ListenOutcomes.

Section ListenClaims.
Context `{Platform}.
Variable sender : Sender.
Variable st : State.
Variable ref : nat.
Variable obj : JSObject.
Hypothesis Hobj : st_store st !! ref = Some obj.

Lemma started_condition :
  get (deref (payRequest sender st ref).2 ref) "executionCondition"
  = get obj "executionCondition".
Proof. by apply started_property. Qed.


End ListenClaims.

(** X17: the listen path.  When the transfer was submitted (or was a
    duplicate), the lookup finds nothing, and then an event for the
    payment's condition arrives before the timer is due, with only events
    for other conditions before it, [payRequest] resolves with the
    fulfillment of that event; the timer is cleared and the listener
    removed, and later events or the passing of the expiry change
    nothing. *)
Theorem payRequest_fulfilled_by_event `{Platform} :
  ∀ sender st ref (obj : JSObject) evs0 t1 evs1 t2 r2 evs2 t3 r3 evs3
    tm transfer fulfillment evs4 tend,
    let call := (payRequest sender st ref).1 in
    let armed := listening sender st ref evs0 t1 evs1 t2 r2 in
    let due := dueTime call armed in
    let final :=
      advance tend
        (run call armed
           (evs2 ++ [(t3, LookupDone r3)] ++ evs3
            ++ [(tm, OutgoingFulfill transfer fulfillment)] ++ evs4)) in
    st_store st !! ref = Some obj →
    Forall isFulfill evs0 → Forall isFulfill evs1 → accepted r2 →
    notFulfilled r3 → t3 < due →
    Forall (otherBefore (get obj "executionCondition") due) (evs2 ++ evs3) →
    tm < due → matching (get obj "executionCondition") transfer = true →
    Forall isFulfill evs4 →
    st_result final = Done (Resolved fulfillment)
    ∧ st_listeners final = st_listeners st
    ∧ st_timer final = None.
Proof.
  intros sender st ref obj evs0 t1 evs1 t2 r2 evs2 t3 r3 evs3 tm transfer
         fulfillment evs4 tend call armed due final
         Hobj H0 H1 Hr2 Hr3 Ht3 Hother Htm Hm H4.
  rewrite <- (started_condition sender st ref obj Hobj) in Hother, Hm.
  destruct (payRequest_event_after_lookup sender st ref evs0 t1 evs1 t2 r2
              evs2 t3 r3 evs3 tm transfer fulfillment evs4 tend
              H0 H1 Hr2 Hr3 Ht3 Hother Htm Hm H4)
    as ((Htimer & Hls & _) & _ & Hres).
  exact (conj Hres (conj Hls Htimer)).
Qed.

(** X18: an event for the payment's condition that arrives while the
    lookup is still pending is not lost: when the lookup then finds
    nothing, [payRequest] resolves with the fulfillment of that event,
    even if the lookup answers after the expiry. *)
Theorem payRequest_fulfilled_while_polling `{Platform} :
  ∀ sender st ref (obj : JSObject) evs0 t1 evs1 t2 r2 evs2
    tm transfer fulfillment evs3 t3 r3 evs4 tend,
    let call := (payRequest sender st ref).1 in
    let armed := listening sender st ref evs0 t1 evs1 t2 r2 in
    let due := dueTime call armed in
    let final :=
      advance tend
        (run call armed
           (evs2 ++ [(tm, OutgoingFulfill transfer fulfillment)] ++ evs3
            ++ [(t3, LookupDone r3)] ++ evs4)) in
    st_store st !! ref = Some obj →
    Forall isFulfill evs0 → Forall isFulfill evs1 → accepted r2 →
    Forall (otherBefore (get obj "executionCondition") due) evs2 →
    tm < due → matching (get obj "executionCondition") transfer = true →
    Forall isFulfill evs3 → notFulfilled r3 → Forall isFulfill evs4 →
    st_result final = Done (Resolved fulfillment)
    ∧ st_listeners final = st_listeners st
    ∧ st_timer final = None.
Proof.
  intros sender st ref obj evs0 t1 evs1 t2 r2 evs2 tm transfer fulfillment
         evs3 t3 r3 evs4 tend call armed due final
         Hobj H0 H1 Hr2 Hother Htm Hm H3 Hr3 H4.
  rewrite <- (started_condition sender st ref obj Hobj) in Hother, Hm.
  destruct (payRequest_event_before_lookup sender st ref evs0 t1 evs1 t2 r2
              evs2 tm transfer fulfillment evs3 t3 r3 evs4 tend
              H0 H1 Hr2 Hother Htm Hm H3 Hr3 H4)
    as ((Htimer & Hls & _) & _ & Hres).
  exact (conj Hres (conj Hls Htimer)).
Qed.

(** X19: when the lookup fails with an error other than
    [MissingFulfillmentError], [payRequest] rejects with that same error,
    whatever events have arrived; the listener stays registered until a
    matching event or the timer removes it, and is gone once the timer is
    due. *)
Theorem payRequest_lookup_failure `{Platform} :
  ∀ sender st ref evs0 t1 evs1 t2 r2 evs2 t3 err evs3 tend,
    let call := (payRequest sender st ref).1 in
    let armed := listening sender st ref evs0 t1 evs1 t2 r2 in
    let final :=
      advance tend
        (run call armed (evs2 ++ [(t3, LookupDone (inl err))] ++ evs3)) in
    Forall isFulfill evs0 → Forall isFulfill evs1 → accepted r2 →
    Forall isFulfill evs2 → err_name err ≠ "MissingFulfillmentError" →
    Forall isFulfill evs3 →
    st_result final = Done (Rejected err)
    ∧ (dueTime call armed ≤ tend → st_listeners final = st_listeners st).
Proof.
  intros sender st ref evs0 t1 evs1 t2 r2 evs2 t3 err evs3 tend call armed final
         H0 H1 Hr2 H2 Hname H3.
  exact (payRequest_lookup_error sender st ref evs0 t1 evs1 t2 r2 evs2 t3 err
           evs3 tend H0 H1 Hr2 H2 Hname H3).
Qed.


Lemma payRequest_fulfilled_by_event_witness :
  let final :=
    advance 10000
      (@run samplePlatform sampleCall sampleListening
         ([(3, fulfillEvent "cc:1" "other")]
          ++ [(4, LookupDone (inl missingFulfillment))] ++ []
          ++ [(3000, OutgoingFulfill sampleTransfer (VStr "proof"))]
          ++ [(3500, fulfillEvent "cc:0" "again")])) in
  st_result final = Done (Resolved (VStr "proof"))
  ∧ st_listeners final = [7%nat]
  ∧ st_timer final = None.
Proof.
  pose proof (@payRequest_fulfilled_by_event samplePlatform sampleSender
                (idle sampleStore [7%nat]) 5%nat sampleParams [] 1 [] 2 None
                [(3, fulfillEvent "cc:1" "other")] 4 (inl missingFulfillment) []
                3000 sampleTransfer (VStr "proof")
                [(3500, fulfillEvent "cc:0" "again")] 10000) as W.
  cbv zeta in W.
  specialize (W eq_refl ltac:(constructor) ltac:(constructor) I eq_refl).
  specialize (W ltac:(by vm_compute)).
  assert (Hother : Forall (otherBefore (get sampleParams "executionCondition")
                             (@dueTime samplePlatform sampleCall sampleListening))
                          ([(3, fulfillEvent "cc:1" "other")] ++ []))
    by (constructor; [split; by vm_compute | constructor]).
  specialize (W Hother ltac:(by vm_compute) ltac:(by vm_compute)
                ltac:(repeat constructor)).
  exact W.
Defined.

Lemma payRequest_fulfilled_while_polling_witness :
  let final :=
    advance 10000
      (@run samplePlatform sampleCall sampleListening
         ([] ++ [(3, OutgoingFulfill sampleTransfer (VStr "proof"))] ++ []
          ++ [(9999, LookupDone (inl missingFulfillment))] ++ [])) in
  st_result final = Done (Resolved (VStr "proof"))
  ∧ st_listeners final = [7%nat]
  ∧ st_timer final = None.
Proof.
  pose proof (@payRequest_fulfilled_while_polling samplePlatform sampleSender
                (idle sampleStore [7%nat]) 5%nat sampleParams [] 1 [] 2 None
                [] 3 sampleTransfer (VStr "proof") [] 9999
                (inl missingFulfillment) [] 10000) as W.
  cbv zeta in W.
  specialize (W eq_refl ltac:(constructor) ltac:(constructor) I
                ltac:(constructor) ltac:(by vm_compute) ltac:(by vm_compute)
                ltac:(constructor) eq_refl ltac:(constructor)).
  exact W.
Defined.

Lemma payRequest_lookup_failure_witness :
  let final :=
    advance 10000
      (@run samplePlatform sampleCall sampleListening
         ([] ++ [(4, LookupDone (inl (Error "ledger down")))] ++ [])) in
  st_result final = Done (Rejected (Error "ledger down"))
  ∧ st_listeners final = [7%nat].
Proof.
  pose proof (@payRequest_lookup_failure samplePlatform sampleSender
                (idle sampleStore [7%nat]) 5%nat [] 1 [] 2 None
                [] 4 (Error "ledger down") [] 10000) as W.
  cbv zeta in W.
  assert (Hname : err_name (Error "ledger down") ≠ "MissingFulfillmentError")
    by discriminate.
  specialize (W ltac:(constructor) ltac:(constructor) I ltac:(constructor)
                Hname ltac:(constructor)).
  destruct W as [Hres Hgone].
  split; [exact Hres|]. apply Hgone. by vm_compute.
Defined.


(** ** [payRequest]: the promise settles once *)

Section SettlesOnce.
Context `{Platform}.
Variable call : Call.

Lemma finished_or_not (ph : Phase) : ph = Finished ∨ ph ≠ Finished.
Proof. destruct ph; auto. Qed.

Lemma settles_same st st' :
  st_phase st' = st_phase st → st_result st' = st_result st → Settles st st'.
Proof. intros Hp Hr. split; intros; [split; congruence | left; congruence]. Qed.

Lemma settles_open st st' :
  st_phase st ≠ Finished →
  st_result st' = st_result st ∨ st_phase st' = Finished → Settles st st'.
Proof. intros Hp Hr. split; intros; done. Qed.

Lemma settles_trans st st' st'' :
  Settles st st' → Settles st' st'' → Settles st st''.
Proof.
  intros [Hfin Hopen] [Hfin' Hopen']. split.
  - intros Hp. destruct (Hfin Hp) as [Hp' Hr'].
    destruct (Hfin' Hp') as [Hp'' Hr'']. split; congruence.
  - intros Hp. destruct (finished_or_not (st_phase st')) as [Hp' | Hp'].
    + right. by apply Hfin'.
    + destruct (Hopen Hp) as [Hr | ?]; [|done].
      destruct (Hopen' Hp') as [Hr' | ?]; [left; congruence | by right].
Qed.

Lemma settleListener_settles s st : Settles st (settleListener s st).
Proof.
  unfold settleListener.
  destruct (st_listenerPromise st) as [[|settled]|];
    try (by apply settles_same).
  destruct (st_phase st) eqn:Hp; try (by apply settles_same).
  apply settles_open; [congruence | by right].
Qed.

Lemma lookedUp_settles r st :
  st_phase st ≠ Finished → Settles st (lookedUp r st).
Proof.
  intros Hp. apply settles_open; [done|]. unfold lookedUp.
  repeat case_match; cbn; auto.
Qed.

Lemma submitted_settles r st :
  st_phase st ≠ Finished → Settles st (submitted call r st).
Proof.
  intros Hp. unfold submitted.
  assert (Settles st (listenAndPoll call st))
    by (apply settles_open; [done | by left]).
  destruct r as [err|]; [|done].
  destruct (negb _); [by apply lookedUp_settles | done].
Qed.

Lemma emit_settles transfer fulfillment st :
  Settles st (emit call transfer fulfillment st).
Proof.
  unfold emit, fulfillmentListener.
  repeat case_match; try (by apply settles_same).
  eapply settles_trans; [|apply settleListener_settles]. by apply settles_same.
Qed.

Lemma advance_settles t st : Settles st (advance t st).
Proof.
  unfold advance, timeout. cbn.
  repeat case_match; try (by apply settles_same).
  eapply settles_trans; [|apply settleListener_settles]. by apply settles_same.
Qed.

Lemma step_alone_settles s st : Settles st (step call st s).
Proof.
  unfold step.
  destruct s as [[err|] | r | r | transfer fulfillment];
    destruct (st_phase st) eqn:Hp;
    try (by apply settles_same); try apply emit_settles;
    try (apply submitted_settles; congruence);
    try (apply lookedUp_settles; congruence).
  apply settles_open; [congruence | by left].
Qed.

Lemma step_settles t s st : Settles st (step call (advance t st) s).
Proof.
  eapply settles_trans; [apply advance_settles | apply step_alone_settles].
Qed.

Lemma step_consistent t s st :
  Consistent st → Consistent (step call (advance t st) s).
Proof.
  intros Hc. destruct (step_settles t s st) as [Hfin Hopen]. unfold Consistent.
  destruct (finished_or_not (st_phase st)) as [Hp | Hp].
  - right. by apply Hfin.
  - destruct Hc as [Hres | ?]; [|done].
    destruct (Hopen Hp) as [Heq | ?]; [left; congruence | by right].
Qed.

Lemma run_consistent timeline st :
  Consistent st → Consistent (run call st timeline).
Proof.
  revert st. induction timeline as [|e tl IH]; intros st Hc; [done|].
  apply IH. by apply step_consistent.
Qed.

Lemma run_finished timeline st :
  st_phase st = Finished →
  st_phase (run call st timeline) = Finished
  ∧ st_result (run call st timeline) = st_result st.
Proof.
  revert st. induction timeline as [|e tl IH]; intros st Hp; [done|].
  destruct (proj1 (step_settles e.1 e.2 st) Hp) as [Hp' Hres'].
  destruct (IH _ Hp') as [Hp'' Hres''].
  unfold run in *. cbn [fold_left]. split; [done | by rewrite Hres''].
Qed.
End SettlesOnce.

(** X21: the promise returned by [payRequest] settles at most once:
    whatever the client does and whichever events arrive, in any order,
    once the promise has resolved or rejected, no later response, event
    or timer changes its outcome. *)
Theorem payRequest_settles_once `{Platform} :
  ∀ sender st ref timeline timeline',
    let call := (payRequest sender st ref).1 in
    let mid := run call (payRequest sender st ref).2 timeline in
    st_result mid ≠ Pending →
    st_result (run call mid timeline') = st_result mid.
Proof.
  intros sender st ref timeline timeline' call mid Hsettled.
  assert (Hc : Consistent mid)
    by (apply run_consistent; by left).
  destruct Hc as [? | Hp]; [done|].
  exact (proj2 (run_finished call timeline' mid Hp)).
Qed.

Lemma payRequest_settles_once_witness :
  let call := sampleCall in
  let mid := @run samplePlatform call
               (@payRequest samplePlatform sampleSender (idle sampleStore [7%nat]) 5).2
               [(1, ConnectDone None); (2, SendDone None);
                (4, LookupDone (inr (VStr "proof")))] in
  st_result
    (@run samplePlatform call mid
       [(5, fulfillEvent "cc:0" "other proof");
        (6, LookupDone (inl (Error "late")));
        (20000, SendDone (Some (Error "late")))])
  = st_result mid.
Proof.
  pose proof (@payRequest_settles_once samplePlatform sampleSender
                (idle sampleStore [7%nat]) 5%nat
                [(1, ConnectDone None); (2, SendDone None);
                 (4, LookupDone (inr (VStr "proof")))]
                [(5, fulfillEvent "cc:0" "other proof");
                 (6, LookupDone (inl (Error "late")));
                 (20000, SendDone (Some (Error "late")))]) as W.
  cbv zeta in W. exact (W ltac:(by vm_compute)).
Defined.

(** ** [payRequest]: the calls made on the client *)

Section ClientCalls.
Context `{Platform}.
Variable call : Call.
Variable listeners : list nat.
Variable log0 : list ClientCall.
Variable sent : JSObject.

Local Abbreviation me := (fresh listeners).

Lemma sameClient_refl st : SameClient st st.
Proof. by repeat split. Qed.

Lemma sameClient_trans st st' st'' :
  SameClient st st' → SameClient st' st'' → SameClient st st''.
Proof.
  intros (? & ? & ? & ?) (? & ? & ? & ?). repeat split; congruence.
Qed.

Lemma settleListener_sameClient s st : SameClient st (settleListener s st).
Proof. unfold settleListener. repeat case_match; by repeat split. Qed.

Lemma lookedUp_sameClient r st : SameClient st (lookedUp r st).
Proof. unfold lookedUp. repeat case_match; by repeat split. Qed.

Lemma settleListener_late s st :
  late (st_phase st) → late (st_phase (settleListener s st)).
Proof.
  unfold settleListener.
  destruct (st_listenerPromise st) as [[|settled]|]; try done.
  destruct (st_phase st); try done; intros _; cbn; by split.
Qed.

Lemma lookedUp_late r st : late (st_phase (lookedUp r st)).
Proof. unfold lookedUp. repeat case_match; cbn; by split. Qed.

Lemma listened_sameClient st st' :
  SameClient st st' → Listened call listeners log0 sent st →
  Listened call listeners log0 sent st'.
Proof.
  intros (Hl & Ht & Hls & Hlog) (calls & Hcalls & Hform).
  exists calls. split; [done|].
  unfold Unregistered, Registered, Unlistened in *.
  rewrite Hl, Ht, Hls, Hlog. done.
Qed.

Lemma unregistered_sameClient calls st st' :
  SameClient st st' → Unregistered listeners log0 calls st →
  Unregistered listeners log0 calls st'.
Proof.
  intros (Hl & Ht & Hls & Hlog). unfold Unregistered.
  by rewrite Hl, Ht, Hls, Hlog.
Qed.

Lemma set_clock_sameClient t st : SameClient st (set_clock t st).
Proof. by repeat split. Qed.

(** Removing the listener: from registered to removed. *)
Lemma release_registered calls s st :
  Registered call listeners log0 calls st →
  Unlistened call listeners log0 calls
    (settleListener s (removeListener me (clearTimeout st))).
Proof.
  intros (Hl & _ & Hls & Hlog).
  destruct (settleListener_sameClient s (removeListener me (clearTimeout st)))
    as (Hl' & Ht' & Hls' & Hlog').
  unfold Unlistened. rewrite Hl', Ht', Hls', Hlog'. cbn.
  rewrite Hl, Hls, Hlog, (filter_fresh_listener _ _ (infinite_is_fresh _)).
  by rewrite <- !app_assoc.
Qed.

Lemma listened_advance t st :
  late (st_phase st) → Listened call listeners log0 sent st →
  late (st_phase (advance t st)) ∧ Listened call listeners log0 sent (advance t st).
Proof.
  intros Hlate (calls & Hcalls & Hform).
  assert (Hquiet : st_timer st = None →
            late (st_phase (advance t st))
            ∧ Listened call listeners log0 sent (advance t st)).
  { intros Ht. unfold advance. cbn. rewrite Ht. split; [done|].
    apply (listened_sameClient st); [apply set_clock_sameClient|].
    by exists calls. }
  destruct Hform as [Hu | [Hr | Hu]];
    [apply Hquiet, Hu | | apply Hquiet, Hu].
  pose proof Hr as (Hl & [due Ht] & Hls & Hlog).
  unfold advance, timeout. cbn. rewrite Ht.
  destruct (due <=? Z.max (st_clock st) t).
  - cbn. rewrite Hl. split.
    + by apply settleListener_late.
    + exists calls. split; [done|]. right. right.
      apply (release_registered calls _ (set_clock (Z.max (st_clock st) t) st)).
      unfold Registered. cbn. by rewrite Hl, Ht, Hls, Hlog.
  - split; [done|].
    apply (listened_sameClient st); [apply set_clock_sameClient|].
    exists calls. split; [done|]. by right; left.
Qed.

Lemma listened_emit transfer fulfillment st :
  late (st_phase st) → Listened call listeners log0 sent st →
  late (st_phase (emit call transfer fulfillment st))
  ∧ Listened call listeners log0 sent (emit call transfer fulfillment st).
Proof.
  intros Hlate (calls & Hcalls & Hform). unfold emit.
  destruct Hform as [Hu | [Hr | Hu]].
  - rewrite (proj1 Hu). split; [done|]. exists calls. split; [done | by left].
  - pose proof Hr as (Hl & _ & Hls & _). rewrite Hl, Hls.
    rewrite bool_decide_true by (apply elem_of_app; right; by left).
    unfold fulfillmentListener. destruct (strict_eq _ _).
    + split; [by apply settleListener_late|].
      exists calls. split; [done|]. right. right. by apply release_registered.
    + split; [done|]. exists calls. split; [done | by right; left].
  - pose proof Hu as (Hl & _ & Hls & _). rewrite Hl, Hls.
    rewrite bool_decide_false by apply infinite_is_fresh.
    split; [done|]. exists calls. split; [done | by right; right].
Qed.

(** The first [catch] and the [then] after it, from a state without a
    listener. *)
Lemma unregistered_submitted calls r st :
  calls = [] ∨ calls = [CSendQuotedPayment sent] →
  Unregistered listeners log0 calls st →
  late (st_phase (submitted call r st))
  ∧ Listened call listeners log0 sent (submitted call r st).
Proof.
  intros Hcalls Hu.
  assert (Hlisten : late (st_phase (listenAndPoll call st))
                    ∧ Listened call listeners log0 sent (listenAndPoll call st)).
  { split; [by split|]. exists calls. split; [done|]. right. left.
    destruct Hu as (_ & _ & Hls & Hlog).
    unfold Registered, listenAndPoll. cbn. rewrite Hls, Hlog.
    repeat split; [by eexists | by rewrite <- !app_assoc]. }
  assert (Hlooked : ∀ err, late (st_phase (lookedUp (inl err) st))
                    ∧ Listened call listeners log0 sent (lookedUp (inl err) st)).
  { intros err. split; [apply lookedUp_late|]. exists calls. split; [done|].
    left. apply (unregistered_sameClient calls st);
      [apply lookedUp_sameClient | exact Hu]. }
  unfold submitted. destruct r as [err|]; [|done].
  by destruct (negb _).
Qed.

Lemma payment_advance t st : payment call (advance t st) = payment call st.
Proof. unfold payment, deref. by rewrite advance_store. Qed.

Lemma payment_step s st : payment call (step call st s) = payment call st.
Proof. unfold payment, deref. by rewrite step_store. Qed.

Lemma trace_advance t st :
  Trace call listeners log0 sent st → Trace call listeners log0 sent (advance t st).
Proof.
  intros [Hpay Hcases]. split; [by rewrite payment_advance|].
  assert (Hquiet : ∀ calls, Unregistered listeners log0 calls st →
            advance t st = set_clock (Z.max (st_clock st) t) st).
  { intros calls (_ & Ht & _). unfold advance. cbn. by rewrite Ht. }
  destruct Hcases as [[Hph Hu] | [[Hph Hu] | [Hlate Hl]]].
  - left. rewrite (Hquiet _ Hu). split; [done|].
    by apply (unregistered_sameClient _ st), Hu.
  - right. left. rewrite (Hquiet _ Hu). split; [done|].
    by apply (unregistered_sameClient _ st), Hu.
  - right. right. by apply listened_advance.
Qed.

Lemma late_step_ignored s st :
  late (st_phase st) →
  (∀ transfer fulfillment, s ≠ OutgoingFulfill transfer fulfillment) →
  (∀ r, s = LookupDone r → st_phase st ≠ Polling) →
  step call st s = st.
Proof.
  intros [Hc Hs] Hev Hlook. unfold step.
  destruct s as [[err|] | r | r | transfer fulfillment];
    destruct (st_phase st) eqn:Hp; try done.
  - by specialize (Hlook r eq_refl).
  - by specialize (Hev transfer fulfillment).
  - by specialize (Hev transfer fulfillment).
  - by specialize (Hev transfer fulfillment).
Qed.

Lemma trace_step s st :
  Trace call listeners log0 sent st →
  Trace call listeners log0 sent (step call st s).
Proof.
  intros [Hpay Hcases]. split; [by rewrite payment_step|].
  destruct Hcases as [[Hph Hu] | [[Hph Hu] | [Hlate Hl]]].
  - (* connecting *)
    destruct s as [[err|] | r | r | transfer fulfillment];
      unfold step; rewrite ?Hph.
    + right. right. apply unregistered_submitted with (calls := []); auto.
    + right. left. destruct Hu as (Hl & Ht & Hls & Hlog).
      split; [done|]. unfold Unregistered. cbn.
      by rewrite Hl, Ht, Hls, Hlog, Hpay, app_nil_r.
    + by left.
    + by left.
    + left. unfold emit. by rewrite (proj1 Hu).
  - (* submitting *)
    destruct s as [[err|] | r | r | transfer fulfillment];
      unfold step; rewrite ?Hph.
    + by right; left.
    + by right; left.
    + right. right.
      apply unregistered_submitted with (calls := [CSendQuotedPayment sent]);
        auto.
    + by right; left.
    + right. left. unfold emit. by rewrite (proj1 Hu).
  - (* past the submission *)
    right. right.
    destruct s as [[err|] | r | r | transfer fulfillment].
    + rewrite late_step_ignored; [by split | done | done | done].
    + rewrite late_step_ignored; [by split | done | done | done].
    + rewrite late_step_ignored; [by split | done | done | done].
    + unfold step. destruct Hlate as [Hc Hs].
      destruct (st_phase st) eqn:Hp; try done;
        try (rewrite Hp; split; [by split | done]).
      split; [apply lookedUp_late|].
      by apply (listened_sameClient st); [apply lookedUp_sameClient|].
    + replace (step call st (OutgoingFulfill transfer fulfillment))
        with (emit call transfer fulfillment st)
        by (unfold step; by destruct (st_phase st)).
      by apply listened_emit.
Qed.

Lemma trace_run timeline st :
  Trace call listeners log0 sent st →
  Trace call listeners log0 sent (run call st timeline).
Proof.
  revert st. induction timeline as [|e tl IH]; intros st Ht; [done|].
  apply IH. by apply trace_step, trace_advance.
Qed.

(** The log and the client's listeners, stage by stage. *)
Lemma trace_stages st :
  Trace call listeners log0 sent st →
  ∃ submission listening,
    st_log st = log0 ++ submission ++ listening
    ∧ (submission = [] ∨ submission = [CSendQuotedPayment sent])
    ∧ ((listening = [] ∧ st_listeners st = listeners)
       ∨ (listening = registration call listeners
          ∧ st_listeners st = listeners ++ [me])
       ∨ (listening = registration call listeners ++ removal listeners
          ∧ st_listeners st = listeners)).
Proof.
  intros [_ Hcases].
  destruct Hcases as [[_ Hu] | [[_ Hu] | [_ (calls & Hcalls & Hform)]]].
  - exists [], []. destruct Hu as (_ & _ & Hls & Hlog).
    split; [exact Hlog|]. split; [by left|]. left. by split.
  - exists [CSendQuotedPayment sent], []. destruct Hu as (_ & _ & Hls & Hlog).
    split; [by rewrite Hlog, app_nil_r|]. split; [by right|]. left. by split.
  - destruct Hform as [Hu | [Hr | Hu]].
    + exists calls, []. destruct Hu as (_ & _ & Hls & Hlog).
      split; [by rewrite Hlog, app_nil_r|]. split; [done|]. left. by split.
    + exists calls, (registration call listeners).
      destruct Hr as (_ & _ & Hls & Hlog).
      split; [exact Hlog|]. split; [done|]. right. left. by split.
    + exists calls, (registration call listeners ++ removal listeners).
      destruct Hu as (_ & _ & Hls & Hlog).
      split; [exact Hlog|]. split; [done|]. right. right. by split.
Qed.
End ClientCalls.

(** X22: whatever the client answers and whichever events arrive, in any
    order and at any time, the calls that one [payRequest] makes on the
    client after [connect] are: at most one [sendQuotedPayment], with the
    caller's object; then nothing more, or [on] for its own listener
    directly followed by [getFulfillment] for its transfer id, or these
    two followed by one [removeListener] for that same listener.  So it
    never submits twice, never looks up twice, and removes a listener
    only after it has registered it, and only its own.  The client's
    listeners are those from before the call, with the call's listener
    added exactly while it is registered and not yet removed. *)
Theorem payRequest_client_calls `{Platform} :
  ∀ sender st ref timeline,
    let call := (payRequest sender st ref).1 in
    let started := (payRequest sender st ref).2 in
    let final := run call started timeline in
    let me := fresh (st_listeners st) in
    let registration :=
      [COn "outgoing_fulfill" me; CGetFulfillment (call_transferId call)] in
    let removal := [CRemoveListener "outgoing_fulfill" me] in
    ∃ submission listening,
      st_log final = st_log st ++ CConnect :: submission ++ listening
      ∧ (submission = []
         ∨ submission = [CSendQuotedPayment (deref started ref)])
      ∧ ((listening = [] ∧ st_listeners final = st_listeners st)
         ∨ (listening = registration
            ∧ st_listeners final = st_listeners st ++ [me])
         ∨ (listening = registration ++ removal
            ∧ st_listeners final = st_listeners st)).
Proof.
  intros sender st ref timeline call started final me registration removal.
  assert (Ht : Trace call (st_listeners st) (st_log st ++ [CConnect])
                     (deref started ref) started).
  { split; [done|]. left. by repeat split; rewrite ?app_nil_r. }
  apply (trace_run _ _ _ _ timeline) in Ht.
  destruct (trace_stages _ _ _ _ _ Ht)
    as (submission & listening & Hlog & Hsub & Hlisten).
  exists submission, listening. split; [|exact (conj Hsub Hlisten)].
  subst final. rewrite Hlog. by rewrite <- app_assoc.
Qed.
